(** * A private blockchain ledger (src/blockchain.js), embedded in Rocq

    The [Blockchain] class keeps an array of blocks and a height counter and
    exposes promise-returning methods.  The embedding follows the source
    method by method:

    - JavaScript values the methods handle (strings, numbers with NaN,
      rejection reasons) are small inductive types;
    - a method body run by [new Promise(async (resolve, reject) => ...)] is a
      computation in a state monad over the ledger object and a trace of the
      external calls it makes, whose steps may continue, settle the promise,
      throw, or stay suspended at an [await];
    - the array [stars] that [getStarsByWalletAddress] hands out is shared
      with the callbacks it queued, so that method is modelled with its
      microtask queue. *)

From Stdlib Require Import ZArith Lia Ascii String DecimalString.
From Stdlib Require DecimalPos.
From stdpp Require Import base option list strings.

Local Open Scope string_scope.
Local Open Scope Z_scope.

(** ** JavaScript values *)

(** Values that reach [reject(...)] or are thrown.  [new Error(m)] carries
    only its message; the engine's own errors carry a message too;
    [submitStar] also rejects with plain strings. *)
Inductive reason : Type :=
| Error (message : string)
| ReferenceError (message : string)
| TypeError (message : string)
| Str (s : string).

(** [err.message]: a string primitive has no [message] property, so the
    template literal prints [undefined]. *)
Definition message_of (err : reason) : string :=
  match err with
  | Error m | ReferenceError m | TypeError m => m
  | Str _ => "undefined"
  end.

(** A settled or unsettled promise, as a caller can observe it. *)
Inductive promise (A : Type) : Type :=
| Resolved (value : A)
| Rejected (why : reason)
| Pending.
Arguments Resolved {A} value.
Arguments Rejected {A} why.
Arguments Pending {A}.

(** A call into a library that either returns or throws. *)
Inductive completion (A : Type) : Type :=
| Ret (value : A)
| Raise (err : reason).
Arguments Ret {A} value.
Arguments Raise {A} err.

(** Numbers: the integers the code computes with, and NaN ([None]).  The
    only arithmetic is [currentTime - time > timeLimit]; on doubles that
    comparison has the same outcome as on integers whenever the clock is
    below 2^52 seconds, whatever the parsed operand. *)
Definition number := option Z.

Definition NaN : number := None.

Definition js_sub (a b : number) : number :=
  match a, b with
  | Some x, Some y => Some (x - y)
  | _, _ => NaN
  end.

(** [a > b]: false as soon as one side is NaN. *)
Definition js_gt (a b : number) : bool :=
  match a, b with
  | Some x, Some y => y <? x
  | _, _ => false
  end.

(** *** [String.prototype.split] with a one-character separator *)

Fixpoint split (sep : ascii) (s : string) : list string :=
  match s with
  | EmptyString => [EmptyString]
  | String c rest =>
      if Ascii.eqb c sep then EmptyString :: split sep rest
      else match split sep rest with
           | tok :: toks => String c tok :: toks
           | [] => [String c EmptyString]
           end
  end.

(** *** [parseInt] with no radix argument

    Leading white space is dropped, then an optional sign, then an optional
    [0x]/[0X] prefix selecting radix 16, then the longest run of digits of
    the radix; no digit at all gives NaN.  (White space here is the ASCII
    part of what the engine strips.) *)

Definition is_white (c : ascii) : bool :=
  let n := nat_of_ascii c in
  (Nat.eqb n 32 || (Nat.leb 9 n && Nat.leb n 13))%bool.

Fixpoint skip_white (s : string) : string :=
  match s with
  | String c rest => if is_white c then skip_white rest else s
  | EmptyString => s
  end.

Definition digit_of (c : ascii) : option Z :=
  let n := Z.of_nat (nat_of_ascii c) in
  if (48 <=? n) && (n <=? 57) then Some (n - 48)
  else if (97 <=? n) && (n <=? 122) then Some (n - 87)
  else if (65 <=? n) && (n <=? 90) then Some (n - 55)
  else None.

Fixpoint digits (radix : Z) (s : string) (acc : number) : number :=
  match s with
  | String c rest =>
      match digit_of c with
      | Some d =>
          if d <? radix
          then digits radix rest (Some (default 0 acc * radix + d))
          else acc
      | None => acc
      end
  | EmptyString => acc
  end.

Definition parseInt_string (s : string) : number :=
  let s := skip_white s in
  let '(sign, s) :=
    match s with
    | String "-" rest => (-1, rest)
    | String "+" rest => (1, rest)
    | _ => (1, s)
    end in
  let '(radix, s) :=
    match s with
    | String "0" (String "x" rest) | String "0" (String "X" rest) => (16, rest)
    | _ => (10, s)
    end in
  Z.mul sign <$> digits radix s NaN.

(** [parseInt(v)] where [v] may be [undefined] (an array read past the end):
    the argument is first turned into the string ["undefined"], which has no
    digit. *)
Definition parseInt (v : option string) : number :=
  match v with
  | Some s => parseInt_string s
  | None => NaN
  end.

(** ** Blocks (block.js) *)

Module BlockClass.

(** The structured payload a block stores: [{data}] for the genesis block,
    [{star, owner}] for a submitted star.  The star itself is opaque to the
    ledger and is kept as text. *)
Inductive bdata : Type :=
| GenesisData (data : string)
| StarData (star : string) (owner : string).

(** [data.owner]: [undefined] on a payload without that property. *)
Definition owner_of (data : bdata) : option string :=
  match data with
  | GenesisData _ => None
  | StarData _ owner => Some owner
  end.

(** The fields blockchain.js reads and writes on a block.  [hash] and
    [previousBlockHash] hold [null] ([None]) or a digest; [time] is the
    number written in the decimal string the code stores. *)
Record Block : Type := mkBlock {
  hash : option string;
  height : Z;
  body : string;
  time : Z;
  previousBlockHash : option string
}.

Definition with_hash (h : option string) (b : Block) : Block :=
  mkBlock h (height b) (body b) (time b) (previousBlockHash b).
Definition with_height (n : Z) (b : Block) : Block :=
  mkBlock (hash b) n (body b) (time b) (previousBlockHash b).
Definition with_time (t : Z) (b : Block) : Block :=
  mkBlock (hash b) (height b) (body b) t (previousBlockHash b).
Definition with_previousBlockHash (h : option string) (b : Block) : Block :=
  mkBlock (hash b) (height b) (body b) (time b) h.

End BlockClass.

Abbreviation Block := BlockClass.Block.
Abbreviation bdata := BlockClass.bdata.
Abbreviation GenesisData := BlockClass.GenesisData.
Abbreviation StarData := BlockClass.StarData.

(** ** The libraries the ledger calls

    [SHA256] is crypto-js/sha256 followed by [toString()]; [JSON_stringify]
    is [JSON.stringify] on a block; [verify] is bitcoinjs-message's, which
    returns a boolean or throws; [encode]/[decode] are the payload encoding
    block.js applies when a block is built and undoes in [getBData]. *)
Class Libraries : Type := {
  SHA256 : string -> string;
  JSON_stringify : Block -> string;
  verify : string -> string -> string -> completion bool;
  encode : bdata -> string;
  decode : string -> option bdata
}.

(** The round trip the payload encoding promises. *)
Class LawfulLibraries (L : Libraries) : Prop := {
  decode_encode : forall data : bdata, decode (encode data) = Some data
}.

Section Ledger.

Context {L : Libraries}.

(** *** The methods of [Block]

    block.js is not part of the sources at hand; its three entry points are
    written from the specification's section 4.1. *)

(** Modelled from the spec: the constructor of [Block] in block.js, which is
    missing.  A new block holds the encoded payload, no hash, and the empty
    sentinel as previous hash (section 3: "a sentinel/empty value for the
    genesis block"). *)
Definition new_Block (data : bdata) : Block :=
  BlockClass.mkBlock None 0 (encode data) 0 None.

(** The digest of a block's fields with the hash field set to [null], as
    line 86 of blockchain.js computes it on a new block. *)
Definition rehash (block : Block) : string :=
  SHA256 (JSON_stringify (BlockClass.with_hash None block)).

(** Modelled from the spec: [Block.validate] in block.js, which is missing.
    "Recomputes the hash over the current field values (again excluding the
    stored hash) and returns true iff it equals the stored hash." *)
Definition validate (block : Block) : promise bool :=
  Resolved (bool_decide (BlockClass.hash block = Some (rehash block))).

(** Modelled from the spec: [Block.getBData] in block.js, which is missing.
    "Converts the stored opaque payload back into its structured form.
    Fails with a DecodeError if the stored bytes are not validly encoded."
    Decoding does not suspend: the promise is settled when it is returned. *)
Definition getBData (block : Block) : promise bdata :=
  match decode (BlockClass.body block) with
  | Some data => Resolved data
  | None => Rejected (Error "DecodeError")
  end.

(** ** The ledger object and the world around it *)

Record Blockchain : Type := mkBlockchain {
  chain : list Block;
  height : Z
}.

(** What a method does outside the ledger object. *)
Inductive event : Type :=
| ConsoleError (lines : list string)
| VerifyCall (message address signature : string).

Record World : Type := mkWorld {
  this : Blockchain;
  trace : list event
}.

(** ** Promise executors

    The body of an executor runs statement by statement.  A statement either
    hands a value to the next one, settles the promise ([resolve(v)] or
    [reject(r)], after which every body in this file returns), throws, or
    waits for ever at an [await] on a promise that never settles. *)
Inductive step (R A : Type) : Type :=
| Next (a : A)
| Resolve (v : R)
| Reject (why : reason)
| Throw (err : reason)
| Suspend.
#[global] Arguments Next {R A} a.
#[global] Arguments Resolve {R A} v.
#[global] Arguments Reject {R A} why.
#[global] Arguments Throw {R A} err.
#[global] Arguments Suspend {R A}.

Definition exec (R A : Type) : Type := World -> step R A * World.

(** A method as its caller sees it: the promise it returns and the world it
    leaves. *)
Definition method (R : Type) : Type := World -> promise R * World.

Definition ret {R A} (a : A) : exec R A := fun w => (Next a, w).

Definition bind {R A B} (m : exec R A) (k : A -> exec R B) : exec R B :=
  fun w =>
    match m w with
    | (Next a, w') => k a w'
    | (Resolve v, w') => (Resolve v, w')
    | (Reject r, w') => (Reject r, w')
    | (Throw e, w') => (Throw e, w')
    | (Suspend, w') => (Suspend, w')
    end.

#[global] Instance exec_ret R : MRet (exec R) := fun A => @ret R A.
#[global] Instance exec_bind R : MBind (exec R) := fun A B k m => @bind R A B m k.

Definition resolve {R A} (v : R) : exec R A := fun w => (Resolve v, w).
Definition reject {R A} (r : reason) : exec R A := fun w => (Reject r, w).
Definition throw {R A} (e : reason) : exec R A := fun w => (Throw e, w).

(** [try { body } catch (err) { handler }] *)
Definition try_catch {R A} (body : exec R A) (handler : reason -> exec R A)
  : exec R A :=
  fun w =>
    match body w with
    | (Throw e, w') => handler e w'
    | other => other
    end.

(** [await p] on a promise whose state is known. *)
Definition await_promise {R A} (p : promise A) : exec R A :=
  match p with
  | Resolved v => ret v
  | Rejected r => throw r
  | Pending => fun w => (Suspend, w)
  end.

(** [await m(...)] on a method of the ledger. *)
Definition await {R A} (m : method A) : exec R A :=
  fun w => let '(p, w') := m w in await_promise p w'.

Definition get_this {R} : exec R Blockchain := fun w => (Next (this w), w).
Definition set_this {R} (self : Blockchain) : exec R unit :=
  fun w => (Next tt, mkWorld self (trace w)).
Definition emit {R} (e : event) : exec R unit :=
  fun w => (Next tt, mkWorld (this w) (trace w ++ [e])).

(** [new Promise(async (resolve, reject) => { body })].  An exception that
    leaves the [async] executor rejects the executor's own, dropped, promise
    (an unhandled rejection, on which recent versions of Node end the
    process): the promise handed to the caller is never settled. *)
Definition new_Promise_async {R} (body : exec R unit) : method R :=
  fun w =>
    match body w with
    | (Resolve v, w') => (Resolved v, w')
    | (Reject r, w') => (Rejected r, w')
    | (Next _, w') | (Throw _, w') | (Suspend, w') => (Pending, w')
    end.

(** [new Promise((resolve, reject) => { body })]: an exception thrown by a
    plain executor rejects the promise. *)
Definition new_Promise {R} (body : exec R unit) : method R :=
  fun w =>
    match body w with
    | (Resolve v, w') => (Resolved v, w')
    | (Reject r, w') => (Rejected r, w')
    | (Throw e, w') => (Rejected e, w')
    | (Next _, w') | (Suspend, w') => (Pending, w')
    end.

(** [Promise.all]: the values in order, or the first rejection; pending as
    long as one input is and none has rejected. *)
Fixpoint Promise_all {A} (ps : list (promise A)) : promise (list A) :=
  match ps with
  | [] => Resolved []
  | p :: rest =>
      match p, Promise_all rest with
      | Rejected r, _ => Rejected r
      | _, Rejected r => Rejected r
      | Resolved v, Resolved vs => Resolved (v :: vs)
      | _, _ => Pending
      end
  end.

(** A loop over a list that threads the value it builds. *)
Fixpoint for_each {R A S} (f : S -> A -> exec R S) (l : list A) (acc : S)
  : exec R S :=
  match l with
  | [] => ret acc
  | x :: rest => acc' ← f acc x; for_each f rest acc'
  end.

(** [async function f() { body }]: the promise resolves when the body runs
    off its end and rejects when it throws. *)
Definition async_function (body : exec unit unit) : method unit :=
  fun w =>
    match body w with
    | (Next _, w') => (Resolved tt, w')
    | (Resolve v, w') => (Resolved v, w')
    | (Reject r, w') | (Throw r, w') => (Rejected r, w')
    | (Suspend, w') => (Pending, w')
    end.

(** How a template literal prints a hash field and a number. *)
Definition render (h : option string) : string := default "null" h.

(** The double-quote character, for messages that print one. *)
Definition quote : string := String (ascii_of_nat 34) EmptyString.

Definition render_number (n : number) : string :=
  match n with
  | Some z => NilZero.string_of_int (Z.to_int z)
  | None => "NaN"
  end.

(** ** [validateChain] (lines 253-282)

    The two loops that fill [errorLog] name [block], which is declared with
    [const] inside the body of the first [for] loop and nowhere else: where
    they read it, the identifier is unbound and reading it throws. *)
Definition free_block {R} : exec R Block :=
  throw (ReferenceError "block is not defined").

(** Lines 265-267, the callback of [results.forEach]. *)
Definition report_invalid {R} (errorLog : list string) (outcome : bool)
  : exec R (list string) :=
  if negb outcome then
    block ← free_block;
    ret (errorLog ++
         ["Block '" +:+ render (BlockClass.hash block)
          +:+ "' failed validation"])%list
  else ret errorLog.

(** Lines 271-278, the body of the second [for] loop. *)
Definition report_broken {R} (self : Blockchain) (errorLog : list string)
    (i : nat) : exec R (list string) :=
  if (0 <? i)%nat then
    let previousBlock := chain self !! (i - 1)%nat in
    block ← free_block;
    match previousBlock with
    | Some previousBlock =>
        if bool_decide (BlockClass.previousBlockHash block
                        ≠ BlockClass.hash previousBlock)
        then ret (errorLog ++
                  ["Broken chain - " +:+ quote +:+ render (BlockClass.hash block)
                   +:+ quote +:+ " previous block hash is invalid"])%list
        else ret errorLog
    | None => throw (TypeError "Cannot read properties of undefined")
    end
  else ret errorLog.

Definition validateChain : method (list string) :=
  new_Promise_async (
    self ← get_this;
    let validationPromises := validate <$> chain self in
    results ← await_promise (Promise_all validationPromises);
    errorLog ← for_each report_invalid results [];
    errorLog ← for_each (report_broken self)
                        (seq 0 (length (chain self))) errorLog;
    resolve errorLog).

(** ** [_addBlock] (lines 63-109)

    Reading [.hash] of [self.chain[-1]] on an empty array throws a
    [TypeError]; the wording of its message is the engine's. *)

(** Lines 69-100: what runs once [await self.validateChain()] has produced
    [errors]. *)
Definition _addBlock_validated (errors : list string) (block : Block)
    (clock : Z) : exec Block unit :=
  if (0 <? length errors)%nat then
    emit (ConsoleError errors);;
    throw (Error "Unable to add block to defective chain!")
  else
    self ← get_this;
    block ← (if -1 <? height self then
               match last (chain self) with
               | Some lastBlock =>
                   ret (BlockClass.with_previousBlockHash
                          (BlockClass.hash lastBlock) block)
               | None => throw (TypeError "Cannot read properties of undefined")
               end
             else ret block);
    let block := BlockClass.with_time clock block in
    let block := BlockClass.with_height (Z.of_nat (length (chain self))) block in
    let block :=
      BlockClass.with_hash (Some (SHA256 (JSON_stringify block))) block in
    status ← await_promise (validate block);
    if negb status then
      reject (Error "Unable to add block because it is invalid")
    else
      set_this (mkBlockchain (chain self ++ [block])%list (height self + 1));;
      resolve block.

Definition _addBlock (block : Block) (clock : Z) : method Block :=
  new_Promise_async (
    try_catch (
      errors ← await validateChain;
      _addBlock_validated errors block clock)
    (fun err =>
       reject (Error ("An error occurred while adding the block. Details: "
                      +:+ message_of err)))).

(** ** Construction (lines 24-40) *)

Definition initializeChain (clock : Z) : method unit :=
  async_function (
    self ← get_this;
    if bool_decide (height self = -1) then
      let block := new_Block (GenesisData "Genesis Block") in
      _ ← await (_addBlock block clock);
      ret tt
    else ret tt).

(** The fields as the constructor sets them.  It then calls
    [initializeChain()] without awaiting it: when [new Blockchain()]
    returns, that call is suspended at its first [await]. *)
Definition constructor : Blockchain := mkBlockchain [] (-1).

(** Construction run to its end: the [initializeChain()] call the
    constructor started has settled. *)
Definition construction (clock : Z) : promise unit * World :=
  initializeChain clock (mkWorld constructor []).

(** ** Queries and challenge issuance *)

Definition getChainHeight : method Z :=
  new_Promise (self ← get_this; resolve (height self)).

Definition requestMessageOwnershipVerification (address : string) (clock : Z)
  : method string :=
  new_Promise (
    let currentTime := render_number (Some clock) in
    let message := address +:+ ":" +:+ currentTime +:+ ":starRegistry" in
    resolve message).

Definition getBlockByHash (hash : string) : method Block :=
  new_Promise (
    self ← get_this;
    let result :=
      filter (fun block => BlockClass.hash block = Some hash) (chain self) in
    match result with
    | first :: _ => resolve first
    | [] => reject (Error "No hash was found with the specified hash")
    end).

(** Resolves with the block or with [null] ([None]). *)
Definition getBlockByHeight (height : Z) : method (option Block) :=
  new_Promise (
    self ← get_this;
    let block :=
      List.find (fun p => bool_decide (BlockClass.height p = height)) (chain self) in
    resolve block).

(** ** [submitStar] (lines 146-182)

    [currentTime] is the clock read at line 155, [sealTime] the one
    [_addBlock] reads at line 80. *)
Definition submitStar (address message signature star : string)
    (currentTime sealTime : Z) : method Block :=
  new_Promise_async (
    try_catch (
      let tokens := split ":" message in
      let time := tokens !! 1%nat in
      let time := parseInt time in
      let currentTime : number := Some currentTime in
      let timeLimit : number := Some (5 * 60) in
      if js_gt (js_sub currentTime time) timeLimit then
        emit (ConsoleError
                ["Time limit exceeded: "
                 +:+ render_number (js_sub currentTime time) +:+ "s"]);;
        reject (Str "Cannot verify message as the time limit is exceeded")
      else
        emit (VerifyCall message address signature);;
        status ← match verify message address signature with
                  | Ret status => ret status
                  | Raise err => throw err
                  end;
        if negb status then
          reject (Str "Message verification failed")
        else
          let block := new_Block (StarData star address) in
          block ← await (_addBlock block sealTime);
          resolve block)
    (fun err =>
       reject (Error ("Unable to register block with star object. Details: "
                      +:+ message_of err)))).

(** ** [getStarsByWalletAddress] (lines 226-245)

    The executor passes an [async] callback to [filter].  Each call of the
    callback runs up to [await block.getBData()] and returns; what follows
    the [await] is queued as a microtask.  [filter] returns, [resolve(stars)]
    settles the promise with the array object itself, and the queued
    continuations then push into that same array.  Whoever reads the
    promise's value does so from a reaction queued after those
    continuations, and reads the array as they left it. *)

(** A value tested as a condition: [undefined] and the empty string are
    false. *)
Definition truthy (v : option string) : bool :=
  match v with
  | Some s => negb (bool_decide (s = ""))
  | None => false
  end.

(** The shared array and the console, as a queued continuation finds and
    leaves them. *)
Definition heap : Type := list bdata * list event.

(** Lines 233-239, entered with the outcome of [await block.getBData()]. *)
Definition callback_resume (address : string) (data : promise bdata)
    (h : heap) : heap :=
  let '(stars, console) := h in
  match data with
  | Resolved data =>
      let blockAddr := BlockClass.owner_of data in
      if truthy blockAddr && bool_decide (blockAddr = Some address)
      then ((stars ++ [data])%list, console)
      else (stars, console)
  | Rejected err => (stars, (console ++ [ConsoleError [message_of err]])%list)
  | Pending => (stars, console)
  end.

Record handed_out : Type := mkHandedOut {
  stars_at_resolve : list bdata;
  microtasks : list (heap -> heap)
}.

Definition getStarsByWalletAddress (address : string) (self : Blockchain)
  : handed_out :=
  let stars := [] in
  mkHandedOut stars
    ((fun block => callback_resume address (getBData block)) <$> chain self).

(** The array as a reader of the promise finds it. *)
Definition stars_read (out : handed_out) (console : list event) : heap :=
  fold_left (fun h task => task h) (microtasks out)
            (stars_at_resolve out, console).

(** ** Operations on a ledger, one at a time

    Each operation runs until its promise has settled or is stuck before the
    next one starts; calls that overlap in time are outside this model.
    [AddBlock] is [_addBlock] as the class calls it, on a block just built
    from a payload. *)

Inductive operation : Type :=
| InitializeChain (clock : Z)
| AddBlock (data : bdata) (clock : Z)
| SubmitStar (address message signature star : string) (currentTime sealTime : Z)
| RequestMessage (address : string) (clock : Z)
| GetChainHeight
| GetBlockByHash (hash : string)
| GetBlockByHeight (height : Z)
| GetStars (address : string)
| ValidateChain.

(** The world once the operation's promise has settled or got stuck. *)
Definition perform (o : operation) (w : World) : World :=
  match o with
  | InitializeChain clock => (initializeChain clock w).2
  | AddBlock data clock => (_addBlock (new_Block data) clock w).2
  | SubmitStar address message signature star currentTime sealTime =>
      (submitStar address message signature star currentTime sealTime w).2
  | RequestMessage address clock =>
      (requestMessageOwnershipVerification address clock w).2
  | GetChainHeight => (getChainHeight w).2
  | GetBlockByHash hash => (getBlockByHash hash w).2
  | GetBlockByHeight height => (getBlockByHeight height w).2
  | GetStars address =>
      mkWorld (this w)
              (stars_read (getStarsByWalletAddress address (this w)) (trace w)).2
  | ValidateChain => (validateChain w).2
  end.

Definition perform_all (ops : list operation) (w : World) : World :=
  fold_left (fun w o => perform o w) ops w.

(** ** What the claims speak of *)

(** A block passes self-validation. *)
Definition passes (block : Block) : bool :=
  bool_decide (BlockClass.hash block = Some (rehash block)).

(** Every block but the first names the hash of the one before it. *)
Definition linked (blocks : list Block) : Prop :=
  forall (i : nat) (block previous : Block),
    blocks !! S i = Some block -> blocks !! i = Some previous ->
    BlockClass.previousBlockHash block = BlockClass.hash previous.

(** The first block has the empty sentinel as previous hash. *)
Definition genesis_sentinel (blocks : list Block) : Prop :=
  forall genesis : Block,
    blocks !! 0%nat = Some genesis -> BlockClass.previousBlockHash genesis = None.

(** The height counter and the height fields agree with the positions. *)
Definition ledger_inv (self : Blockchain) : Prop :=
  height self = Z.of_nat (length (chain self)) - 1 /\
  forall (i : nat) (block : Block),
    chain self !! i = Some block -> BlockClass.height block = Z.of_nat i.

(** The chain [validateChain] can answer for: at most one block, and that
    one passing self-validation. *)
Definition answerable (blocks : list Block) : bool :=
  forallb passes blocks && (length blocks <=? 1)%nat.

(** The block [_addBlock] pushes on a chain it accepts (lines 74-86). *)
Definition sealed (self : Blockchain) (block : Block) (clock : Z) : Block :=
  let block :=
    if -1 <? height self then
      match last (chain self) with
      | Some lastBlock =>
          BlockClass.with_previousBlockHash (BlockClass.hash lastBlock) block
      | None => block
      end
    else block in
  let block := BlockClass.with_time clock block in
  let block := BlockClass.with_height (Z.of_nat (length (chain self))) block in
  BlockClass.with_hash (Some (SHA256 (JSON_stringify block))) block.

(** The ledger with one more block. *)
Definition pushed (self : Blockchain) (block : Block) : Blockchain :=
  mkBlockchain (chain self ++ [block])%list (height self + 1).

(** Heights and links together. *)
Definition well_formed (self : Blockchain) : Prop :=
  ledger_inv self /\ linked (chain self) /\ genesis_sentinel (chain self).

(** The payload of a block if it decodes and names a non-empty owner equal
    to [address]. *)
Definition owned_by (address : string) (block : Block) : option bdata :=
  data ← decode (BlockClass.body block);
  if bool_decide (BlockClass.owner_of data = Some address /\ address <> "")
  then Some data else None.

(** The owner query in the specification's words: "scans all blocks except
    index 0, decodes each payload, and collects those whose decoded owner
    equals address, preserving chain order"; a payload that does not decode
    is skipped. *)
Definition spec_getStarsByOwner (address : string) (blocks : list Block)
  : list bdata :=
  omap (fun block =>
          data ← decode (BlockClass.body block);
          if bool_decide (BlockClass.owner_of data = Some address)
          then Some data else None)
       (drop 1 blocks).

(** The rejections of [submitStar], by the name the specification gives
    them. *)
Definition ChallengeExpiredError : reason :=
  Str "Cannot verify message as the time limit is exceeded".
Definition OwnershipVerificationFailedError : reason :=
  Str "Message verification failed".

(** What the [catch] of [submitStar] rejects with. *)
Definition registration_failure (err : reason) : reason :=
  Error ("Unable to register block with star object. Details: "
         +:+ message_of err).

(** The timestamp [submitStar] reads in a message. *)
Definition embedded_time (message : string) : number :=
  parseInt (split ":" message !! 1%nat).

End Ledger.

(** ** A concrete set of libraries, for running the ledger on examples *)

Module Demo.

(** A stand-in digest: injective, so distinct blocks get distinct hashes. *)
Definition sha (s : string) : string := "sha256(" +:+ s +:+ ")".

Definition stringify (b : Block) : string :=
  "{hash:" +:+ render (BlockClass.hash b)
  +:+ ",height:" +:+ render_number (Some (BlockClass.height b))
  +:+ ",body:" +:+ BlockClass.body b
  +:+ ",time:" +:+ render_number (Some (BlockClass.time b))
  +:+ ",previousBlockHash:" +:+ render (BlockClass.previousBlockHash b) +:+ "}".

(** A signature is the text [address/message].  An empty signature and an
    empty address are refused with an exception, as the real library
    refuses a signature of the wrong length and an address that does not
    decode. *)
Definition signed_by (message address signature : string) : completion bool :=
  if bool_decide (signature = "") then Raise (Error "Invalid signature length")
  else if bool_decide (address = "") then Raise (Error "Invalid checksum")
  else Ret (bool_decide (signature = address +:+ "/" +:+ message)).

(** A payload encoding: a tag, then for a star the owner's length in unary,
    the owner and the star. *)
Fixpoint tally (n : nat) (rest : string) : string :=
  match n with
  | O => String "." rest
  | S k => String "|" (tally k rest)
  end.

Fixpoint untally (s : string) : option (nat * string) :=
  match s with
  | String "." rest => Some (O, rest)
  | String "|" rest => (fun p => (S p.1, p.2)) <$> untally rest
  | _ => None
  end.

Fixpoint cut (n : nat) (s : string) : option (string * string) :=
  match n, s with
  | O, _ => Some (EmptyString, s)
  | S k, String c rest => (fun p => (String c p.1, p.2)) <$> cut k rest
  | S _, EmptyString => None
  end.

Definition enc (data : bdata) : string :=
  match data with
  | GenesisData d => String "G" d
  | StarData star owner =>
      String "S" (tally (String.length owner) (owner +:+ star))
  end.

Definition dec (s : string) : option bdata :=
  match s with
  | String "G" d => Some (GenesisData d)
  | String "S" rest =>
      '(n, rest) ← untally rest;
      '(owner, star) ← cut n rest;
      Some (StarData star owner)
  | _ => None
  end.

Definition libraries : Libraries :=
  {| SHA256 := sha; JSON_stringify := stringify; verify := signed_by;
     encode := enc; decode := dec |}.

(** A world with a freshly constructed ledger, and the same after one star
    has been registered. *)
Definition fresh : World := (@construction libraries 1700000000).2.

Definition alice : string := "1AliceWalletAddress".
Definition bob : string := "1BobWalletAddress".

Definition challenge (address : string) : string :=
  address +:+ ":1700000100:starRegistry".

Definition after_one_star : World :=
  (@submitStar libraries alice (challenge alice)
     (alice +:+ "/" +:+ challenge alice) "Vega" 1700000200 1700000200 fresh).2.

(** A ledger whose only block had its body changed after it was sealed. *)
Definition tampered : World :=
  mkWorld
    (mkBlockchain
       ((fun b => BlockClass.mkBlock (BlockClass.hash b) (BlockClass.height b)
                    "tampered" (BlockClass.time b)
                    (BlockClass.previousBlockHash b)) <$> chain (this fresh))
       (height (this fresh)))
    [].

(** Four star blocks after the genesis block, three of Alice's and one of
    Bob's, and one block whose body is not an encoded payload. *)
Definition star_block (n : Z) (star owner : string) : Block :=
  BlockClass.mkBlock (Some (sha star)) n (enc (StarData star owner)) 1700000000
    (Some "previous").

Definition gallery : Blockchain :=
  mkBlockchain
    (chain (this fresh) ++
     [star_block 1 "Vega" alice; star_block 2 "Rigel" bob;
      BlockClass.mkBlock (Some "h") 3 "garbage" 1700000000 (Some "previous");
      star_block 4 "Deneb" alice; star_block 5 "Altair" alice])%list
    5.

End Demo.

(** ** Further notions *)

(** A text without the separator of the challenge message. *)
Fixpoint no_colon (s : string) : bool :=
  match s with
  | EmptyString => true
  | String c rest => negb (Ascii.eqb c ":") && no_colon rest
  end.

(** A chain the revalidation ought to report: a block fails
    self-validation, or a block does not name the hash of the one before. *)
Definition defective {L : Libraries} (blocks : list Block) : Prop :=
  Exists (fun block => passes block = false) blocks \/ ~ linked blocks.

(** The block at index 0 carries no owner, as a genesis block does. *)
Definition genesis_first {L : Libraries} (blocks : list Block) : Prop :=
  forall (first : Block) (data : bdata),
    blocks !! 0%nat = Some first ->
    decode (BlockClass.body first) = Some data ->
    BlockClass.owner_of data = None.

(** No block holds a star registered to the empty address. *)
Definition owners_named {L : Libraries} (blocks : list Block) : Prop :=
  forall (block : Block) (star : string),
    block ∈ blocks ->
    decode (BlockClass.body block) <> Some (StarData star "").

(** [verify] accepts no signature for the empty address. *)
Definition refuses_empty_address (L : Libraries) : Prop :=
  forall message signature : string,
    verify message "" signature <> Ret true.

(** The operations a caller of the class has: all but the private
    [_addBlock]. *)
Definition public (o : operation) : bool :=
  match o with
  | AddBlock _ _ => false
  | _ => true
  end.

(** The array a reader of [getStarsByWalletAddress(address)] finds. *)
Definition stars_found {L : Libraries} (address : string) (self : Blockchain)
  : list bdata :=
  (stars_read (getStarsByWalletAddress address self) []).1.

(** * Properties *)

Section Properties.

Context {L : Libraries}.

(** ** How [validateChain] runs *)

Lemma Promise_all_validate (blocks : list Block) :
  Promise_all (validate <$> blocks) = Resolved (passes <$> blocks).
Proof.
  induction blocks as [|block blocks IH]; [reflexivity|].
  cbn [fmap list_fmap Promise_all] in *. rewrite IH. reflexivity.
Qed.

Lemma report_invalid_loop {R} (results : list bool) (errorLog : list string)
    (w : World) :
  for_each (R:=R) report_invalid results errorLog w
  = if forallb id results then (Next errorLog, w)
    else (Throw (ReferenceError "block is not defined"), w).
Proof.
  revert errorLog; induction results as [|[] results IH]; intros errorLog;
    [reflexivity| |reflexivity].
  cbn [for_each forallb id andb]. rewrite <- IH. reflexivity.
Qed.

Lemma report_broken_loop {R} (self : Blockchain) (indices : list nat)
    (errorLog : list string) (w : World) :
  for_each (R:=R) (report_broken self) indices errorLog w
  = if forallb (Nat.eqb 0) indices then (Next errorLog, w)
    else (Throw (ReferenceError "block is not defined"), w).
Proof.
  revert errorLog; induction indices as [|[|i] indices IH]; intros errorLog;
    [reflexivity| |reflexivity].
  cbn [for_each forallb Nat.eqb andb]. rewrite <- IH. reflexivity.
Qed.

Lemma only_index_zero (n : nat) :
  forallb (Nat.eqb 0) (seq 0 n) = (n <=? 1)%nat.
Proof. destruct n as [|[|n]]; reflexivity. Qed.

Lemma forallb_id_fmap {A} (f : A -> bool) (l : list A) :
  forallb id (f <$> l) = forallb f l.
Proof. induction l as [|x l IH]; [reflexivity|]. cbn. rewrite IH. reflexivity. Qed.

(** [validateChain] settles, with an empty list, exactly on an answerable
    chain; on any other it stays pending.  It never touches the world. *)
Lemma validateChain_runs (w : World) :
  validateChain w
  = (if answerable (chain (this w)) then Resolved [] else Pending, w).
Proof.
  unfold validateChain, new_Promise_async, answerable.
  unfold mbind, exec_bind, bind, get_this.
  rewrite Promise_all_validate. cbn [await_promise ret].
  rewrite report_invalid_loop, forallb_id_fmap.
  destruct (forallb passes (chain (this w))); [|reflexivity].
  rewrite report_broken_loop, only_index_zero.
  destruct (length (chain (this w)) <=? 1)%nat; reflexivity.
Qed.

(** ** How [_addBlock] runs *)

(** On a chain [validateChain] answers for, lines 74-100 run; on any other
    the [await] at line 68 never returns. *)
Lemma _addBlock_runs (block : Block) (clock : Z) (w : World) :
  _addBlock block clock w
  = if answerable (chain (this w)) then
      if (-1 <? height (this w)) && bool_decide (chain (this w) = [])
      then (Rejected (Error "An error occurred while adding the block. Details: Cannot read properties of undefined"), w)
      else if passes (sealed (this w) block clock)
      then (Resolved (sealed (this w) block clock),
            mkWorld (pushed (this w) (sealed (this w) block clock)) (trace w))
      else (Rejected (Error "Unable to add block because it is invalid"), w)
    else (Pending, w).
Proof.
  unfold _addBlock, new_Promise_async, try_catch.
  unfold mbind, exec_bind, bind, await. rewrite validateChain_runs.
  destruct (answerable (chain (this w))); [|reflexivity].
  cbn [await_promise ret].
  unfold _addBlock_validated, sealed, passes, pushed.
  cbn [length Nat.ltb Nat.leb].
  unfold mbind, exec_bind, bind, get_this, set_this, validate, await_promise.
  destruct w as [[blocks h] tr]; cbn [this chain height trace].
  destruct (-1 <? h); cbn [andb].
  - destruct (last blocks) as [lastBlock|] eqn:Hlast.
    + rewrite bool_decide_eq_false_2
        by (intros ->; discriminate Hlast).
      cbn [ret].
      destruct (bool_decide _); reflexivity.
    + apply last_None in Hlast; subst blocks.
      rewrite bool_decide_eq_true_2 by reflexivity. reflexivity.
  - cbn [ret]. destruct (bool_decide _); reflexivity.
Qed.

(** No chain makes [validateChain] resolve with an error entry. *)
Lemma validateChain_reports_nothing (w : World) (errors : list string) :
  (validateChain w).1 = Resolved errors -> errors = [].
Proof.
  rewrite validateChain_runs. cbn [fst].
  destruct (answerable _); [|discriminate]. congruence.
Qed.

(** An append either pushes the sealed block and resolves with it, or
    leaves the world as it found it. *)
Lemma _addBlock_outcome (block : Block) (clock : Z) (w : World) :
  _addBlock block clock w
  = (Resolved (sealed (this w) block clock),
     mkWorld (pushed (this w) (sealed (this w) block clock)) (trace w))
  \/ ((_addBlock block clock w).2 = w /\
      forall b : Block, (_addBlock block clock w).1 <> Resolved b).
Proof.
  rewrite _addBlock_runs.
  destruct (answerable _); [|right; split; [reflexivity|discriminate]].
  destruct (_ && _); [right; split; [reflexivity|discriminate]|].
  destruct (passes _); [left; reflexivity|].
  right; split; [reflexivity|discriminate].
Qed.

Lemma _addBlock_trace (block : Block) (clock : Z) (w : World) :
  trace (_addBlock block clock w).2 = trace w.
Proof.
  destruct (_addBlock_outcome block clock w) as [-> | [-> _]]; reflexivity.
Qed.

(** ** How [submitStar] runs *)

Lemma submitStar_runs (address message signature star : string)
    (currentTime sealTime : Z) (w : World) :
  submitStar address message signature star currentTime sealTime w
  = let elapsed := js_sub (Some currentTime) (embedded_time message) in
    if js_gt elapsed (Some 300) then
      (Rejected ChallengeExpiredError,
       mkWorld (this w)
         (trace w ++ [ConsoleError ["Time limit exceeded: "
                                    +:+ render_number elapsed +:+ "s"]]))
    else
      let w1 := mkWorld (this w)
                  (trace w ++ [VerifyCall message address signature]) in
      match verify message address signature with
      | Raise err => (Rejected (registration_failure err), w1)
      | Ret false => (Rejected OwnershipVerificationFailedError, w1)
      | Ret true =>
          match _addBlock (new_Block (StarData star address)) sealTime w1 with
          | (Resolved block, w2) => (Resolved block, w2)
          | (Rejected err, w2) => (Rejected (registration_failure err), w2)
          | (Pending, w2) => (Pending, w2)
          end
      end.
Proof.
  unfold submitStar, new_Promise_async, try_catch, embedded_time.
  change (5 * 60) with 300.
  cbn zeta. destruct (js_gt _ _); [reflexivity|].
  unfold mbind, exec_bind, bind, emit, await.
  destruct (verify message address signature) as [[]|err]; try reflexivity.
  cbn [ret negb].
  destruct (_addBlock _ _ _) as [[block|err|] w2]; reflexivity.
Qed.

(** ** Rejections of [submitStar] *)

(** C4.  When the message carries a timestamp and more than 300 seconds
    have passed since, [submitStar] rejects with the expiry error, having
    only written to the console: [verify] has not been called and the
    ledger is untouched.  At 300 seconds or less it does not reject with
    that error. *)
Theorem challenge_expiry (address message signature star : string)
    (currentTime sealTime t : Z) (w : World) :
  embedded_time message = Some t ->
  (currentTime - t > 300 ->
   submitStar address message signature star currentTime sealTime w
   = (Rejected ChallengeExpiredError,
      mkWorld (this w)
        (trace w ++ [ConsoleError ["Time limit exceeded: "
                                   +:+ render_number (Some (currentTime - t))
                                   +:+ "s"]])))
  /\ (currentTime - t <= 300 ->
      (submitStar address message signature star currentTime sealTime w).1
      <> Rejected ChallengeExpiredError).
Proof.
  intros Ht. rewrite submitStar_runs, Ht. cbn [js_sub js_gt]. split; intros Hel.
  - rewrite (proj2 (Z.ltb_lt 300 (currentTime - t))) by lia. reflexivity.
  - rewrite (proj2 (Z.ltb_ge 300 (currentTime - t))) by lia. cbn zeta.
    destruct (verify message address signature) as [[]|err];
      [|discriminate..].
    destruct (_addBlock _ _ _) as [[block|err|] w2]; discriminate.
Qed.

(** C9.  A message with a timestamp at most 300 seconds old and a signature
    that [verify] answers false for: [submitStar] rejects with the
    verification error, and the ledger, its height included, is as before. *)
Theorem wrong_signature_rejected (address message signature star : string)
    (currentTime sealTime t : Z) (w : World) :
  embedded_time message = Some t ->
  currentTime - t <= 300 ->
  verify message address signature = Ret false ->
  (submitStar address message signature star currentTime sealTime w).1
  = Rejected OwnershipVerificationFailedError
  /\ this (submitStar address message signature star currentTime sealTime w).2
     = this w
  /\ height (this (submitStar address message signature star currentTime
                     sealTime w).2)
     = height (this w).
Proof.
  intros Ht Hel Hsig. rewrite submitStar_runs, Ht, Hsig. cbn [js_sub js_gt].
  rewrite (proj2 (Z.ltb_ge 300 (currentTime - t))) by lia.
  repeat split.
Qed.

(** C10.  A message whose timestamp lies in the future is not rejected as
    expired: the first and only thing [submitStar] does outside the ledger
    is to call [verify] on it. *)
Theorem future_challenge_not_expired (address message signature star : string)
    (currentTime sealTime t : Z) (w : World) :
  embedded_time message = Some t ->
  currentTime < t ->
  (submitStar address message signature star currentTime sealTime w).1
  <> Rejected ChallengeExpiredError
  /\ trace (submitStar address message signature star currentTime sealTime w).2
     = (trace w ++ [VerifyCall message address signature])%list.
Proof.
  intros Ht Hfuture. rewrite submitStar_runs, Ht. cbn [js_sub js_gt].
  rewrite (proj2 (Z.ltb_ge 300 (currentTime - t))) by lia. cbn zeta.
  destruct (verify message address signature) as [[]|err];
    [|split; [discriminate|reflexivity]..].
  pose proof (_addBlock_trace (new_Block (StarData star address)) sealTime
                (mkWorld (this w)
                   (trace w ++ [VerifyCall message address signature])))
    as Htrace.
  destruct (_addBlock _ _ _) as [[block|err|] w2]; cbn [fst snd] in *;
    (split; [discriminate|exact Htrace]).
Qed.

(** A message in which no timestamp can be read is not turned away: the
    comparison with the time limit is false on NaN, and [verify] is called. *)
Lemma missing_timestamp_reaches_verify (address message signature star : string)
    (currentTime sealTime : Z) (w : World) :
  embedded_time message = NaN ->
  trace (submitStar address message signature star currentTime sealTime w).2
  = (trace w ++ [VerifyCall message address signature])%list.
Proof.
  intros Hnan. rewrite submitStar_runs, Hnan. cbn [js_sub js_gt NaN]. cbn zeta.
  destruct (verify message address signature) as [[]|err]; try reflexivity.
  pose proof (_addBlock_trace (new_Block (StarData star address)) sealTime
                (mkWorld (this w)
                   (trace w ++ [VerifyCall message address signature])))
    as Htrace.
  destruct (_addBlock _ _ _) as [[block|err|] w2]; exact Htrace.
Qed.

(** ** [_addBlock] on a defective chain *)

Lemma short_chain_linked (blocks : list Block) :
  (length blocks <= 1)%nat -> linked blocks.
Proof.
  intros Hshort i block previous Hblock _.
  apply lookup_lt_Some in Hblock. lia.
Qed.

Lemma defective_not_answerable (blocks : list Block) :
  defective blocks -> answerable blocks = false.
Proof.
  intros Hdefective. destruct (answerable blocks) eqn:Hanswerable;
    [exfalso|reflexivity].
  unfold answerable in Hanswerable.
  apply andb_true_iff in Hanswerable as [Hpass Hshort].
  apply Nat.leb_le in Hshort. destruct Hdefective as [Hfails|Hbroken].
  - apply Exists_exists in Hfails as (block & Hin & Hfails).
    rewrite forallb_forall in Hpass.
    apply list_elem_of_In, Hpass in Hin. congruence.
  - apply Hbroken, short_chain_linked, Hshort.
Qed.

(** C2.  On a chain with a block that fails self-validation or with a
    broken link, [_addBlock] does not reject: its promise stays pending for
    ever, with the ledger and the console as they were. *)
Theorem append_to_defective_chain_never_settles (block : Block) (clock : Z)
    (w : World) :
  defective (chain (this w)) ->
  _addBlock block clock w = (Pending, w)
  /\ forall why : reason, (_addBlock block clock w).1 <> Rejected why.
Proof.
  intros Hdefective. rewrite _addBlock_runs.
  rewrite (defective_not_answerable _ Hdefective).
  split; [reflexivity|discriminate].
Qed.

(** ** The owner query *)

Lemma callback_resume_owned (address : string) (block : Block)
    (stars : list bdata) (console : list event) :
  (callback_resume address (getBData block) (stars, console)).1
  = (stars ++ option_list (owned_by address block))%list.
Proof.
  unfold callback_resume, getBData, owned_by.
  destruct (decode (BlockClass.body block)) as [data|]; cbn;
    [|symmetry; apply app_nil_r].
  destruct data as [d|star owner]; cbn [BlockClass.owner_of truthy andb].
  - rewrite bool_decide_eq_false_2 by (intros [? _]; discriminate).
    symmetry; apply app_nil_r.
  - destruct (decide (owner = address)) as [->|Hne].
    + rewrite (bool_decide_eq_true_2 (Some address = Some address)) by reflexivity.
      rewrite andb_true_r.
      destruct (decide (address = "")) as [Hempty|Hfull].
      * rewrite (bool_decide_eq_true_2 _ Hempty). cbn [negb].
        rewrite bool_decide_eq_false_2 by (intros [_ ?]; contradiction).
        symmetry; apply app_nil_r.
      * rewrite (bool_decide_eq_false_2 _ Hfull). cbn [negb].
        rewrite bool_decide_eq_true_2 by (split; [reflexivity|assumption]).
        reflexivity.
    + rewrite (bool_decide_eq_false_2 (Some owner = Some address))
        by congruence.
      rewrite andb_false_r.
      rewrite bool_decide_eq_false_2 by (intros [? _]; congruence).
      symmetry; apply app_nil_r.
Qed.

Lemma microtasks_collect (address : string) (blocks : list Block)
    (stars : list bdata) (console : list event) :
  (fold_left (fun h task => task h)
     ((fun block => callback_resume address (getBData block)) <$> blocks)
     (stars, console)).1
  = (stars ++ omap (owned_by address) blocks)%list.
Proof.
  revert stars console; induction blocks as [|block blocks IH];
    intros stars console; [symmetry; apply app_nil_r|].
  cbn [fmap list_fmap fold_left].
  pose proof (callback_resume_owned address block stars console) as Hstep.
  destruct (callback_resume address (getBData block) (stars, console))
    as [stars' console'].
  cbn [fst] in Hstep; subst stars'.
  change (list_fmap _ _ ?f blocks) with (f <$> blocks).
  rewrite IH, <- app_assoc. f_equal.
  cbn [omap list_omap]. destruct (owned_by address block); reflexivity.
Qed.

(** The scan on any chain whatever: the array is empty when [resolve]
    runs, and the continuations queued before any reader fill it with the
    payloads of the blocks that decode and name a non-empty owner equal to
    the address, in chain order. *)
Lemma stars_of_owner (address : string) (self : Blockchain)
    (console : list event) :
  stars_at_resolve (getStarsByWalletAddress address self) = []
  /\ (stars_read (getStarsByWalletAddress address self) console).1
     = omap (owned_by address) (chain self).
Proof.
  split; [reflexivity|].
  unfold stars_read, getStarsByWalletAddress.
  cbn [microtasks stars_at_resolve]. apply microtasks_collect.
Qed.

(** On a ledger whose first block is not a star of [address], and for a
    non-empty [address], the array is the one the specification describes. *)
Lemma stars_of_owner_as_specified (address : string) (self : Blockchain)
    (console : list event) :
  address <> "" ->
  (forall first, chain self !! 0%nat = Some first ->
                 owned_by address first = None) ->
  (stars_read (getStarsByWalletAddress address self) console).1
  = spec_getStarsByOwner address (chain self).
Proof.
  intros Hfull Hfirst.
  unfold stars_read, getStarsByWalletAddress.
  cbn [microtasks stars_at_resolve]. rewrite microtasks_collect.
  unfold spec_getStarsByOwner.
  destruct (chain self) as [|first blocks]; [reflexivity|].
  cbn [omap list_omap app]. rewrite (Hfirst first eq_refl). clear Hfirst.
  change (drop 1 (first :: blocks)) with blocks.
  induction blocks as [|block blocks IH]; [reflexivity|].
  cbn [omap list_omap]. rewrite <- IH. unfold owned_by at 1.
  destruct (decode (BlockClass.body block)) as [data|]; cbn; [|reflexivity].
  destruct (decide (BlockClass.owner_of data = Some address)) as [Hown|Hown].
  - rewrite !bool_decide_eq_true_2 by auto. reflexivity.
  - rewrite !bool_decide_eq_false_2 by tauto. reflexivity.
Qed.

(** C5.  On every ledger whose first block carries no owner, as the
    genesis block does, and in which no star is registered to the empty
    address, and for every address: the array [getStarsByWalletAddress]
    resolves with holds, for whoever reads it, exactly the decoded payloads
    of the blocks after the first whose owner is the address, in chain
    order.  A block whose body does not decode is skipped and the scan goes
    on.  Both conditions hold of every ledger the class builds
    ([built_ledger_owners]). *)
Theorem stars_by_owner (address : string) (self : Blockchain)
    (console : list event) :
  genesis_first (chain self) ->
  owners_named (chain self) ->
  (stars_read (getStarsByWalletAddress address self) console).1
  = spec_getStarsByOwner address (chain self).
Proof.
  intros Hfirst Hnamed.
  unfold stars_read, getStarsByWalletAddress.
  cbn [microtasks stars_at_resolve]. rewrite microtasks_collect.
  unfold spec_getStarsByOwner, genesis_first, owners_named in *.
  destruct (chain self) as [|first blocks]; [reflexivity|].
  cbn [omap list_omap app]. change (drop 1 (first :: blocks)) with blocks.
  assert (owned_by address first = None) as Hskip.
  { unfold owned_by.
    destruct (decode (BlockClass.body first)) as [data|] eqn:Hdata;
      [|reflexivity].
    cbn [mbind option_bind]. rewrite bool_decide_eq_false_2; [reflexivity|].
    intros [Hown _]. rewrite (Hfirst first data eq_refl Hdata) in Hown.
    discriminate. }
  rewrite Hskip.
  assert (forall (block : Block) (star : string),
             block ∈ blocks ->
             decode (BlockClass.body block) <> Some (StarData star ""))
    as Hrest by (intros block star Hin; apply Hnamed, elem_of_cons; auto).
  clear Hfirst Hnamed Hskip.
  induction blocks as [|block blocks IH]; [reflexivity|].
  cbn [omap list_omap].
  rewrite IH by (intros b star Hin; apply Hrest, elem_of_cons; auto).
  assert (owned_by address block
          = decode (BlockClass.body block)
            ≫= (fun data =>
                  if bool_decide (BlockClass.owner_of data = Some address)
                  then Some data else None)) as ->; [|reflexivity].
  unfold owned_by.
  destruct (decode (BlockClass.body block)) as [data|] eqn:Hdata;
    [|reflexivity].
  cbn [mbind option_bind].
  destruct (decide (BlockClass.owner_of data = Some address)) as [Hown|Hown].
  - rewrite (bool_decide_eq_true_2 _ Hown).
    rewrite bool_decide_eq_true_2; [reflexivity|]. split; [exact Hown|].
    intros ->. destruct data as [d|star owner]; [discriminate|].
    injection Hown as ->.
    exact (Hrest block star ltac:(apply elem_of_cons; auto) Hdata).
  - rewrite (bool_decide_eq_false_2 _ Hown).
    rewrite bool_decide_eq_false_2 by tauto. reflexivity.
Qed.

(** ** What an operation does to the ledger *)

Lemma _addBlock_this (block : Block) (clock : Z) (w : World) :
  this (_addBlock block clock w).2 = this w
  \/ this (_addBlock block clock w).2
     = pushed (this w) (sealed (this w) block clock).
Proof.
  destruct (_addBlock_outcome block clock w) as [-> | [-> _]];
    [right|left]; reflexivity.
Qed.

Lemma initializeChain_this (clock : Z) (w : World) :
  this (initializeChain clock w).2 = this w
  \/ this (initializeChain clock w).2
     = pushed (this w)
         (sealed (this w) (new_Block (GenesisData "Genesis Block")) clock).
Proof.
  unfold initializeChain, async_function.
  unfold mbind, exec_bind, bind, get_this, await.
  destruct (bool_decide (height (this w) = -1)); [|left; reflexivity].
  pose proof (_addBlock_this (new_Block (GenesisData "Genesis Block")) clock w)
    as Hthis.
  destruct (_addBlock _ _ _) as [[block|err|] w2]; exact Hthis.
Qed.

Lemma submitStar_this (address message signature star : string)
    (currentTime sealTime : Z) (w : World) :
  this (submitStar address message signature star currentTime sealTime w).2
  = this w
  \/ this (submitStar address message signature star currentTime sealTime w).2
     = pushed (this w)
         (sealed (this w) (new_Block (StarData star address)) sealTime).
Proof.
  rewrite submitStar_runs. cbn zeta.
  destruct (js_gt _ _); [left; reflexivity|].
  destruct (verify message address signature) as [[]|err];
    [|left; reflexivity..].
  pose proof (_addBlock_this (new_Block (StarData star address)) sealTime
                (mkWorld (this w)
                   (trace w ++ [VerifyCall message address signature])))
    as Hthis.
  destruct (_addBlock _ _ _) as [[block|err|] w2]; exact Hthis.
Qed.

(** An operation leaves the ledger alone or pushes one freshly built,
    sealed block. *)
Lemma perform_this (o : operation) (w : World) :
  this (perform o w) = this w
  \/ exists (data : bdata) (clock : Z),
       this (perform o w)
       = pushed (this w) (sealed (this w) (new_Block data) clock).
Proof.
  destruct o; cbn [perform].
  - destruct (initializeChain_this clock w) as [H|H]; eauto.
  - destruct (_addBlock_this (new_Block data) clock w) as [H|H]; eauto.
  - destruct (submitStar_this address message signature star currentTime
                sealTime w) as [H|H]; eauto.
  - left; reflexivity.
  - left; reflexivity.
  - left. unfold getBlockByHash, new_Promise.
    unfold mbind, exec_bind, bind, get_this.
    destruct (filter _ _); reflexivity.
  - left; reflexivity.
  - left; reflexivity.
  - left. rewrite validateChain_runs. reflexivity.
Qed.

(** ** Heights and links *)

Lemma sealed_height (self : Blockchain) (block : Block) (clock : Z) :
  BlockClass.height (sealed self block clock) = Z.of_nat (length (chain self)).
Proof. reflexivity. Qed.

Lemma sealed_previousBlockHash (self : Blockchain) (block : Block) (clock : Z) :
  BlockClass.previousBlockHash (sealed self block clock)
  = if -1 <? height self then
      match last (chain self) with
      | Some lastBlock => BlockClass.hash lastBlock
      | None => BlockClass.previousBlockHash block
      end
    else BlockClass.previousBlockHash block.
Proof.
  unfold sealed. destruct (-1 <? height self); [|reflexivity].
  destruct (last (chain self)); reflexivity.
Qed.

(** A block that enters [_addBlock] without a hash leaves it passing
    self-validation. *)
Lemma sealed_passes (self : Blockchain) (block : Block) (clock : Z) :
  BlockClass.hash block = None -> passes (sealed self block clock) = true.
Proof.
  intros Hnone. unfold passes, rehash, sealed.
  apply bool_decide_eq_true_2. destruct block as [h n b t p].
  cbn in Hnone; subst h.
  destruct (-1 <? height self); [destruct (last (chain self))|]; reflexivity.
Qed.

Lemma pushed_ledger_inv (self : Blockchain) (block : Block) (clock : Z) :
  ledger_inv self -> ledger_inv (pushed self (sealed self block clock)).
Proof.
  intros [Hheight Hfields]. split; cbn [pushed chain height].
  - rewrite length_app. cbn [length]. lia.
  - intros i b Hlookup. apply lookup_snoc_Some in Hlookup as [[_ Hold]|[-> <-]].
    + exact (Hfields i b Hold).
    + apply sealed_height.
Qed.

Lemma pushed_well_formed (self : Blockchain) (data : bdata) (clock : Z) :
  well_formed self ->
  well_formed (pushed self (sealed self (new_Block data) clock)).
Proof.
  intros (Hinv & Hlinked & Hgenesis).
  split; [apply pushed_ledger_inv; exact Hinv|].
  destruct Hinv as [Hheight _]. split; cbn [pushed chain].
  - intros i block previous Hblock Hprevious.
    apply lookup_snoc_Some in Hblock as [[Hlt Hblock]|[Hlast <-]].
    + rewrite lookup_app_l in Hprevious by lia.
      exact (Hlinked i block previous Hblock Hprevious).
    + rewrite lookup_app_l in Hprevious by lia.
      rewrite sealed_previousBlockHash.
      rewrite (proj2 (Z.ltb_lt (-1) (height self))) by lia.
      rewrite last_lookup, <- Hlast. cbn [pred]. rewrite Hprevious.
      reflexivity.
  - intros genesis Hfirst.
    apply lookup_snoc_Some in Hfirst as [[_ Hold]|[Hempty <-]].
    + exact (Hgenesis genesis Hold).
    + rewrite sealed_previousBlockHash.
      rewrite (proj2 (Z.ltb_ge (-1) (height self))) by lia. reflexivity.
Qed.

Lemma constructor_well_formed : well_formed constructor.
Proof.
  split; [split; [reflexivity|]|split]; intros i; intros;
    rewrite ?lookup_nil in *; discriminate.
Qed.

Lemma perform_well_formed (o : operation) (w : World) :
  well_formed (this w) -> well_formed (this (perform o w)).
Proof.
  intros Hwf. destruct (perform_this o w) as [->|(data & clock & ->)];
    [exact Hwf|apply pushed_well_formed; exact Hwf].
Qed.

Lemma perform_all_well_formed (ops : list operation) (w : World) :
  well_formed (this w) -> well_formed (this (perform_all ops w)).
Proof.
  revert w; induction ops as [|o ops IH]; intros w Hwf; [exact Hwf|].
  cbn [perform_all fold_left]. apply IH, perform_well_formed, Hwf.
Qed.

(** C6.  Start from the object the constructor makes and run any sequence
    of operations, appends among them: in the chain that results every block
    after the first holds the hash of the block before it as its previous
    hash, and the first block holds the empty sentinel. *)
Theorem hash_chain_after_appends (ops : list operation) (console : list event) :
  linked (chain (this (perform_all ops (mkWorld constructor console))))
  /\ genesis_sentinel
       (chain (this (perform_all ops (mkWorld constructor console)))).
Proof.
  apply (perform_all_well_formed ops (mkWorld constructor console)).
  exact constructor_well_formed.
Qed.

(** ** Construction *)

Lemma construction_runs (clock : Z) :
  construction clock
  = (Resolved tt,
     mkWorld
       (mkBlockchain
          [sealed constructor (new_Block (GenesisData "Genesis Block")) clock]
          0)
       []).
Proof.
  unfold construction, initializeChain, async_function.
  unfold mbind, exec_bind, bind, get_this, await.
  rewrite bool_decide_eq_true_2 by reflexivity.
  rewrite _addBlock_runs.
  cbn [this constructor chain height answerable forallb length Nat.leb andb].
  rewrite sealed_passes by reflexivity. reflexivity.
Qed.

Lemma perform_height (o : operation) (w : World) :
  height (this w) <= height (this (perform o w)).
Proof.
  destruct (perform_this o w) as [->|(data & clock & ->)];
    cbn [pushed height]; lia.
Qed.

Lemma perform_ledger_inv (o : operation) (w : World) :
  ledger_inv (this w) -> ledger_inv (this (perform o w)).
Proof.
  intros Hinv. destruct (perform_this o w) as [->|(data & clock & ->)];
    [exact Hinv|apply pushed_ledger_inv; exact Hinv].
Qed.

Lemma after_construction (clock : Z) (ops : list operation) :
  ledger_inv (this (perform_all ops (construction clock).2))
  /\ 0 <= height (this (perform_all ops (construction clock).2)).
Proof.
  rewrite construction_runs. cbn [snd].
  set (w := mkWorld _ _).
  assert (ledger_inv (this w) /\ 0 <= height (this w)) as Hstart.
  { split; [split; [reflexivity|]|reflexivity].
    intros [|i] block Hlookup; [|discriminate].
    injection Hlookup as <-. reflexivity. }
  clearbody w. revert w Hstart.
  induction ops as [|o ops IH]; intros w [Hinv Hheight]; [split; assumption|].
  cbn [perform_all fold_left]. apply IH. split.
  - apply perform_ledger_inv, Hinv.
  - pose proof (perform_height o w). lia.
Qed.

(** C7.  Every operation, and [_addBlock] on any block, keeps the height
    counter equal to the number of blocks less one and the height field of
    each block equal to its index.  Once construction has run to its end
    the counter is never -1 again, whatever operations follow, and
    [getChainHeight] never resolves with -1. *)
Theorem ledger_invariant_kept :
  (forall (o : operation) (w : World),
      ledger_inv (this w) -> ledger_inv (this (perform o w)))
  /\ (forall (block : Block) (clock : Z) (w : World),
        ledger_inv (this w) -> ledger_inv (this (_addBlock block clock w).2))
  /\ ledger_inv constructor
  /\ (forall (clock : Z) (ops : list operation),
        ledger_inv (this (perform_all ops (construction clock).2))
        /\ height (this (perform_all ops (construction clock).2)) <> -1
        /\ (getChainHeight (perform_all ops (construction clock).2)).1
           <> Resolved (-1)).
Proof.
  split; [exact perform_ledger_inv|]. split; [|split].
  - intros block clock w Hinv.
    destruct (_addBlock_this block clock w) as [->| ->];
      [exact Hinv|apply pushed_ledger_inv; exact Hinv].
  - exact (proj1 constructor_well_formed).
  - intros clock ops. destruct (after_construction clock ops) as [Hinv Hheight].
    split; [exact Hinv|]. split; [lia|].
    unfold getChainHeight, new_Promise, mbind, exec_bind, bind, get_this, resolve.
    cbn [fst]. intros Heq. injection Heq as Heq. lia.
Qed.

(** C8.  With a payload encoding that decodes what it encoded, the ledger
    as construction leaves it has height 0, and the block found at height 0
    decodes to the genesis payload and has the empty sentinel as previous
    hash. *)
Theorem genesis_after_construction (clock : Z) :
  LawfulLibraries L ->
  (construction clock).1 = Resolved tt
  /\ (getChainHeight (construction clock).2).1 = Resolved 0
  /\ exists genesis : Block,
       (getBlockByHeight 0 (construction clock).2).1 = Resolved (Some genesis)
       /\ getBData genesis = Resolved (GenesisData "Genesis Block")
       /\ BlockClass.previousBlockHash genesis = None.
Proof.
  intros Hlawful. rewrite construction_runs. cbn [fst snd].
  split; [reflexivity|]. split; [reflexivity|].
  exists (sealed constructor (new_Block (GenesisData "Genesis Block")) clock).
  split; [reflexivity|]. split; [|reflexivity].
  unfold getBData. cbn [sealed constructor height chain last new_Block
                        BlockClass.body BlockClass.with_hash
                        BlockClass.with_height BlockClass.with_time].
  cbn. rewrite decode_encode. reflexivity.
Qed.

End Properties.

(** * The ledger run on examples *)

Example parseInt_digits : parseInt (Some "1700000000") = Some 1700000000.
Proof. reflexivity. Qed.

Example parseInt_prefix : parseInt (Some " 12px") = Some 12.
Proof. reflexivity. Qed.

Example parseInt_hex : parseInt (Some "0x1f") = Some 31.
Proof. reflexivity. Qed.

Example parseInt_word : parseInt (Some "starRegistry") = NaN.
Proof. reflexivity. Qed.

Example split_message :
  split ":" "1ABC:1700000000:starRegistry"
  = ["1ABC"; "1700000000"; "starRegistry"].
Proof. reflexivity. Qed.

Example split_no_colon : split ":" "hello" = ["hello"].
Proof. reflexivity. Qed.

Lemma untally_tally (n : nat) (rest : string) :
  Demo.untally (Demo.tally n rest) = Some (n, rest).
Proof.
  induction n as [|n IH]; [reflexivity|].
  cbn [Demo.tally Demo.untally]. rewrite IH. reflexivity.
Qed.

Lemma cut_append (owner star : string) :
  Demo.cut (String.length owner) (owner +:+ star) = Some (owner, star).
Proof.
  induction owner as [|c owner IH]; [reflexivity|].
  change (String c owner +:+ star) with (String c (owner +:+ star)).
  cbn [String.length Demo.cut]. rewrite IH. reflexivity.
Qed.

Lemma demo_lawful : LawfulLibraries Demo.libraries.
Proof.
  constructor. intros [d|star owner]; [reflexivity|].
  cbn [decode encode Demo.libraries Demo.enc Demo.dec].
  rewrite untally_tally. cbn [mbind option_bind].
  rewrite cut_append. reflexivity.
Qed.

(** The ledger after construction and one registered star: two blocks. *)
Example two_blocks :
  Demo.after_one_star
  = perform_all (L:=Demo.libraries)
      [InitializeChain 1700000000;
       SubmitStar Demo.alice (Demo.challenge Demo.alice)
         (Demo.alice +:+ "/" +:+ Demo.challenge Demo.alice) "Vega"
         1700000200 1700000200]
      (mkWorld constructor [])
  /\ length (chain (this Demo.after_one_star)) = 2%nat
  /\ height (this Demo.after_one_star) = 1.
Proof. vm_compute. repeat split. Qed.

(** A third block cannot be added: the append never settles. *)
Example third_block_never_added :
  @submitStar Demo.libraries Demo.bob (Demo.challenge Demo.bob)
    (Demo.bob +:+ "/" +:+ Demo.challenge Demo.bob) "Rigel"
    1700000300 1700000300 Demo.after_one_star
  = (Pending,
     mkWorld (this Demo.after_one_star)
       (trace Demo.after_one_star ++
        [VerifyCall (Demo.challenge Demo.bob) Demo.bob
           (Demo.bob +:+ "/" +:+ Demo.challenge Demo.bob)])).
Proof. vm_compute. reflexivity. Qed.

(** The owner query on a chain of six blocks. *)
Example gallery_of_alice :
  (stars_read (@getStarsByWalletAddress Demo.libraries Demo.alice Demo.gallery)
     []).1
  = [StarData "Vega" Demo.alice; StarData "Deneb" Demo.alice;
     StarData "Altair" Demo.alice].
Proof. vm_compute. reflexivity. Qed.

Example gallery_of_bob :
  (stars_read (@getStarsByWalletAddress Demo.libraries Demo.bob Demo.gallery)
     []).1
  = [StarData "Rigel" Demo.bob].
Proof. vm_compute. reflexivity. Qed.

(** When the constructor returns, the genesis block is not there yet. *)
Example height_when_constructor_returns :
  height constructor = -1
  /\ (getChainHeight (mkWorld constructor [])).1 = Resolved (-1).
Proof. split; reflexivity. Qed.

(** ** The claims at concrete inputs *)

(** C1.  On the chain of two sound, linked blocks that one registered star
    leaves, [validateChain] does not resolve with the empty list: it stays
    pending.  On a chain whose only block was tampered with it does not
    resolve with one error entry either: it stays pending too. *)
Theorem validateChain_never_settles :
  (exists genesis block : Block,
      chain (this Demo.after_one_star) = [genesis; block]
      /\ @passes Demo.libraries genesis = true
      /\ @passes Demo.libraries block = true
      /\ BlockClass.previousBlockHash block = BlockClass.hash genesis
      /\ (@validateChain Demo.libraries Demo.after_one_star).1 = Pending)
  /\ (exists block : Block,
        chain (this Demo.tampered) = [block]
        /\ @passes Demo.libraries block = false
        /\ (@validateChain Demo.libraries Demo.tampered).1 = Pending).
Proof.
  split.
  - eexists _, _. split; [vm_compute; reflexivity|].
    repeat split; vm_compute; reflexivity.
  - eexists. split; [vm_compute; reflexivity|].
    split; vm_compute; reflexivity.
Qed.

Lemma append_to_defective_chain_never_settles_witness :
  @defective Demo.libraries (chain (this Demo.tampered))
  /\ @_addBlock Demo.libraries
       (@new_Block Demo.libraries (StarData "Vega" Demo.alice)) 1700000200
       Demo.tampered
     = (Pending, Demo.tampered).
Proof.
  assert (@defective Demo.libraries (chain (this Demo.tampered)))
    as Hdefective.
  { left. apply Exists_exists. eexists. split; [left; reflexivity|].
    vm_compute. reflexivity. }
  split; [exact Hdefective|].
  apply (@append_to_defective_chain_never_settles Demo.libraries _ _ _
           Hdefective).
Defined.

(** C3.  The message [hello] has no second field, so no timestamp; signed by
    Bob, it gets his star appended to the ledger.  So does a message whose
    second field is not a number. *)
Theorem malformed_message_accepted :
  embedded_time "hello" = NaN
  /\ embedded_time "1BobWalletAddress:soon:starRegistry" = NaN
  /\ (exists block : Block,
        @submitStar Demo.libraries Demo.bob "hello" (Demo.bob +:+ "/hello")
          "Sirius" 1700000200 1700000200 Demo.fresh
        = (Resolved block,
           mkWorld (@pushed (this Demo.fresh) block)
             [VerifyCall "hello" Demo.bob (Demo.bob +:+ "/hello")]))
  /\ (exists block : Block,
        (@submitStar Demo.libraries Demo.bob
           "1BobWalletAddress:soon:starRegistry"
           (Demo.bob +:+ "/1BobWalletAddress:soon:starRegistry")
           "Sirius" 1700000200 1700000200 Demo.fresh).1
        = Resolved block).
Proof.
  split; [reflexivity|]. split; [reflexivity|].
  split; eexists; vm_compute; reflexivity.
Qed.

Lemma challenge_expiry_witness :
  embedded_time (Demo.challenge Demo.alice) = Some 1700000100
  /\ (@submitStar Demo.libraries Demo.alice (Demo.challenge Demo.alice)
        "forged" "Vega" 1700000401 1700000401 Demo.fresh).1
     = Rejected ChallengeExpiredError
  /\ (@submitStar Demo.libraries Demo.alice (Demo.challenge Demo.alice)
        "forged" "Vega" 1700000400 1700000400 Demo.fresh).1
     <> Rejected ChallengeExpiredError.
Proof.
  assert (embedded_time (Demo.challenge Demo.alice) = Some 1700000100)
    as Htime by (vm_compute; reflexivity).
  split; [exact Htime|]. split.
  - rewrite (proj1 (@challenge_expiry Demo.libraries Demo.alice
                      (Demo.challenge Demo.alice) "forged" "Vega"
                      1700000401 1700000401 1700000100 Demo.fresh Htime));
      [reflexivity|lia].
  - apply (proj2 (@challenge_expiry Demo.libraries Demo.alice
                    (Demo.challenge Demo.alice) "forged" "Vega"
                    1700000400 1700000400 1700000100 Demo.fresh Htime)).
    lia.
Defined.

Lemma stars_by_owner_witness :
  @genesis_first Demo.libraries (chain Demo.gallery)
  /\ @owners_named Demo.libraries (chain Demo.gallery)
  /\ (stars_read (@getStarsByWalletAddress Demo.libraries Demo.alice
                    Demo.gallery) []).1
     = @spec_getStarsByOwner Demo.libraries Demo.alice (chain Demo.gallery).
Proof.
  assert (@genesis_first Demo.libraries (chain Demo.gallery)) as Hfirst.
  { intros first data Hlookup Hdata. vm_compute in Hlookup.
    injection Hlookup as <-. vm_compute in Hdata. injection Hdata as <-.
    reflexivity. }
  assert (@owners_named Demo.libraries (chain Demo.gallery)) as Hnamed.
  { intros block star Hin. vm_compute in Hin.
    repeat (apply elem_of_cons in Hin as [->|Hin];
            [intros Hdata; vm_compute in Hdata; discriminate Hdata|]).
    apply elem_of_nil in Hin. contradiction. }
  split; [exact Hfirst|]. split; [exact Hnamed|].
  apply (@stars_by_owner Demo.libraries Demo.alice Demo.gallery []
           Hfirst Hnamed).
Defined.

Lemma ledger_invariant_kept_witness :
  ledger_inv (this Demo.fresh)
  /\ ledger_inv
       (this (@perform Demo.libraries
                (SubmitStar Demo.alice (Demo.challenge Demo.alice)
                   (Demo.alice +:+ "/" +:+ Demo.challenge Demo.alice) "Vega"
                   1700000200 1700000200)
                Demo.fresh)).
Proof.
  assert (ledger_inv (this Demo.fresh)) as Hinv.
  { split; [reflexivity|].
    intros [|i] block Hlookup; [|discriminate].
    vm_compute in Hlookup. injection Hlookup as <-. reflexivity. }
  split; [exact Hinv|].
  apply (proj1 (@ledger_invariant_kept Demo.libraries)). exact Hinv.
Defined.

Lemma genesis_after_construction_witness :
  LawfulLibraries Demo.libraries
  /\ (getChainHeight (@construction Demo.libraries 1700000000).2).1
     = Resolved 0.
Proof.
  split; [exact demo_lawful|].
  exact (proj1 (proj2 (@genesis_after_construction Demo.libraries 1700000000
                         demo_lawful))).
Defined.

Lemma wrong_signature_rejected_witness :
  embedded_time (Demo.challenge Demo.alice) = Some 1700000100
  /\ 1700000400 - 1700000100 <= 300
  /\ Demo.signed_by (Demo.challenge Demo.alice) Demo.alice "forged" = Ret false
  /\ (@submitStar Demo.libraries Demo.alice (Demo.challenge Demo.alice)
        "forged" "Vega" 1700000400 1700000400 Demo.fresh).1
     = Rejected OwnershipVerificationFailedError.
Proof.
  assert (embedded_time (Demo.challenge Demo.alice) = Some 1700000100)
    as Htime by (vm_compute; reflexivity).
  assert (Demo.signed_by (Demo.challenge Demo.alice) Demo.alice "forged" = Ret false)
    as Hsig by (vm_compute; reflexivity).
  split; [exact Htime|]. split; [lia|]. split; [exact Hsig|].
  apply (@wrong_signature_rejected Demo.libraries Demo.alice
           (Demo.challenge Demo.alice) "forged" "Vega"
           1700000400 1700000400 1700000100 Demo.fresh Htime);
    [lia|exact Hsig].
Defined.

Lemma future_challenge_not_expired_witness :
  embedded_time (Demo.challenge Demo.alice) = Some 1700000100
  /\ 1600000000 < 1700000100
  /\ trace (@submitStar Demo.libraries Demo.alice (Demo.challenge Demo.alice)
              "forged" "Vega" 1600000000 1600000000 Demo.fresh).2
     = [VerifyCall (Demo.challenge Demo.alice) Demo.alice "forged"].
Proof.
  assert (embedded_time (Demo.challenge Demo.alice) = Some 1700000100)
    as Htime by (vm_compute; reflexivity).
  split; [exact Htime|]. split; [lia|].
  apply (@future_challenge_not_expired Demo.libraries Demo.alice
           (Demo.challenge Demo.alice) "forged" "Vega"
           1600000000 1600000000 1700000100 Demo.fresh Htime).
  lia.
Defined.

(** * More on the methods *)

Section Methods.

Context {L : Libraries}.

(** ** [validateChain] and [_addBlock] on any ledger *)

(** X1.  [validateChain] leaves the world as it is and never rejects.  It
    resolves exactly when the chain has at most one block and every block
    passes self-validation, and then with the empty list; on any other
    chain it stays pending.  No chain gets an error entry. *)
Theorem validateChain_behaviour (w : World) :
  (validateChain w).2 = w
  /\ (forall why : reason, (validateChain w).1 <> Rejected why)
  /\ (forall errors : list string,
        (validateChain w).1 = Resolved errors -> errors = [])
  /\ ((validateChain w).1 = Resolved []
      <-> (length (chain (this w)) <= 1)%nat
          /\ Forall (fun block => passes block = true) (chain (this w)))
  /\ ((validateChain w).1 = Pending
      <-> ~ ((length (chain (this w)) <= 1)%nat
             /\ Forall (fun block => passes block = true) (chain (this w)))).
Proof.
  rewrite validateChain_runs. cbn [fst snd].
  assert (answerable (chain (this w)) = true
          <-> (length (chain (this w)) <= 1)%nat
              /\ Forall (fun block => passes block = true) (chain (this w)))
    as Hanswerable.
  { unfold answerable. rewrite andb_true_iff, forallb_forall, Forall_forall.
    rewrite Nat.leb_le. setoid_rewrite <- list_elem_of_In. tauto. }
  destruct (answerable (chain (this w))).
  - assert ((length (chain (this w)) <= 1)%nat
            /\ Forall (fun block => passes block = true) (chain (this w)))
      as Hyes by (apply Hanswerable; reflexivity).
    split; [reflexivity|]. split; [discriminate|].
    split; [congruence|]. split; [tauto|].
    split; [discriminate|tauto].
  - assert (~ ((length (chain (this w)) <= 1)%nat
               /\ Forall (fun block => passes block = true) (chain (this w))))
      as Hno by (intros Hyes; apply Hanswerable in Hyes; discriminate).
    split; [reflexivity|]. split; [discriminate|].
    split; [discriminate|]. split; [split; [discriminate|tauto]|].
    tauto.
Qed.

(** X2.  [_addBlock] is all or nothing.  Either it resolves with a block
    that is now the last of the chain, the height counter being one more:
    that block has the body it came with, the clock as time, its index as
    height and the digest of its other fields as hash.  Or it does not
    resolve, and world and ledger are exactly as before. *)
Theorem _addBlock_all_or_nothing (block : Block) (clock : Z) (w : World) :
  (exists added : Block,
      _addBlock block clock w
      = (Resolved added,
         mkWorld (mkBlockchain (chain (this w) ++ [added])
                               (height (this w) + 1))
                 (trace w))
      /\ BlockClass.body added = BlockClass.body block
      /\ BlockClass.time added = clock
      /\ BlockClass.height added = Z.of_nat (length (chain (this w)))
      /\ BlockClass.hash added
         = Some (SHA256 (JSON_stringify
                           (BlockClass.with_hash (BlockClass.hash block) added))))
  \/ ((forall added : Block, (_addBlock block clock w).1 <> Resolved added)
      /\ (_addBlock block clock w).2 = w).
Proof.
  destruct (_addBlock_outcome block clock w) as [Hdone|[Hsame Hnot]].
  - left. exists (sealed (this w) block clock). split; [exact Hdone|].
    unfold sealed. destruct block as [h n b t p].
    destruct (-1 <? height (this w)); [destruct (last (chain (this w)))|];
      repeat split.
  - right. split; assumption.
Qed.

Lemma answerable_short (blocks : list Block) :
  answerable blocks = true -> (length blocks <= 1)%nat.
Proof.
  unfold answerable. rewrite andb_true_iff, Nat.leb_le. tauto.
Qed.

Lemma _addBlock_beyond_two (block : Block) (clock : Z) (w : World) :
  (2 <= length (chain (this w)))%nat -> _addBlock block clock w = (Pending, w).
Proof.
  intros Hlong. rewrite _addBlock_runs.
  destruct (answerable (chain (this w))) eqn:Hanswerable; [|reflexivity].
  apply answerable_short in Hanswerable. lia.
Qed.

(** X3.  On a ledger of two or more blocks [_addBlock] never settles and
    changes nothing; [submitStar] therefore never resolves there, whatever
    the message and the signature, and leaves the ledger as it is. *)
Theorem no_append_beyond_two (w : World) :
  (2 <= length (chain (this w)))%nat ->
  (forall (block : Block) (clock : Z), _addBlock block clock w = (Pending, w))
  /\ (forall (address message signature star : string)
             (currentTime sealTime : Z),
        (forall added : Block,
            (submitStar address message signature star currentTime sealTime w).1
            <> Resolved added)
        /\ this (submitStar address message signature star currentTime
                   sealTime w).2 = this w).
Proof.
  intros Hlong. split; [intros; apply _addBlock_beyond_two, Hlong|].
  intros address message signature star currentTime sealTime.
  rewrite submitStar_runs. cbn zeta.
  destruct (js_gt _ _); [split; [discriminate|reflexivity]|].
  destruct (verify message address signature) as [[]|err];
    [|split; [discriminate|reflexivity]..].
  rewrite _addBlock_beyond_two by exact Hlong.
  split; [discriminate|reflexivity].
Qed.

(** ** Ledgers built by the constructor *)

Lemma _addBlock_pushes_answerable (block : Block) (clock : Z) (w : World) :
  this (_addBlock block clock w).2 = this w
  \/ (answerable (chain (this w)) = true
      /\ this (_addBlock block clock w).2
         = pushed (this w) (sealed (this w) block clock)).
Proof.
  rewrite _addBlock_runs.
  destruct (answerable _); [|left; reflexivity].
  destruct (_ && _); [left; reflexivity|].
  destruct (passes _); [right; split; reflexivity|left; reflexivity].
Qed.

Lemma perform_pushes_answerable (o : operation) (w : World) :
  this (perform o w) = this w
  \/ (answerable (chain (this w)) = true
      /\ exists (data : bdata) (clock : Z),
           this (perform o w)
           = pushed (this w) (sealed (this w) (new_Block data) clock)).
Proof.
  destruct o; cbn [perform].
  - unfold initializeChain, async_function.
    unfold mbind, exec_bind, bind, get_this, await.
    destruct (bool_decide (height (this w) = -1)); [|left; reflexivity].
    pose proof (_addBlock_pushes_answerable
                  (new_Block (GenesisData "Genesis Block")) clock w) as Hpush.
    destruct (_addBlock _ _ _) as [[block|err|] w2];
      (destruct Hpush as [H|[Ha H]]; [left; exact H|right; eauto]).
  - destruct (_addBlock_pushes_answerable (new_Block data) clock w)
      as [H|[Ha H]]; [left; exact H|right; eauto].
  - rewrite submitStar_runs. cbn zeta.
    destruct (js_gt _ _); [left; reflexivity|].
    destruct (verify message address signature) as [[]|err];
      [|left; reflexivity..].
    pose proof (_addBlock_pushes_answerable
                  (new_Block (StarData star address)) sealTime
                  (mkWorld (this w)
                     (trace w ++ [VerifyCall message address signature])))
      as Hpush.
    destruct (_addBlock _ _ _) as [[block|err|] w2];
      (destruct Hpush as [H|[Ha H]]; [left; exact H|right; eauto]).
  - left; reflexivity.
  - left; reflexivity.
  - left. unfold getBlockByHash, new_Promise.
    unfold mbind, exec_bind, bind, get_this.
    destruct (filter _ _); reflexivity.
  - left; reflexivity.
  - left; reflexivity.
  - left. rewrite validateChain_runs. reflexivity.
Qed.

(** What holds of every ledger the constructor and the operations build:
    heights in place, every block passing self-validation, two blocks at
    most. *)
Lemma built_ledger (ops : list operation) (console : list event) :
  ledger_inv (this (perform_all ops (mkWorld constructor console)))
  /\ forallb passes
       (chain (this (perform_all ops (mkWorld constructor console)))) = true
  /\ (length (chain (this (perform_all ops (mkWorld constructor console))))
      <= 2)%nat.
Proof.
  set (w := mkWorld constructor console).
  assert (ledger_inv (this w) /\ forallb passes (chain (this w)) = true
          /\ (length (chain (this w)) <= 2)%nat) as Hstart.
  { split; [exact (proj1 constructor_well_formed)|].
    split; [reflexivity|cbn; lia]. }
  clearbody w. revert w Hstart.
  induction ops as [|o ops IH]; intros w (Hinv & Hpass & Hlen);
    [exact (conj Hinv (conj Hpass Hlen))|].
  cbn [perform_all fold_left]. apply IH.
  destruct (perform_pushes_answerable o w) as [->|(Ha & data & clock & ->)];
    [exact (conj Hinv (conj Hpass Hlen))|].
  split; [apply pushed_ledger_inv; exact Hinv|].
  cbn [pushed chain]. split.
  - rewrite forallb_app, Hpass. cbn [forallb andb].
    rewrite sealed_passes by reflexivity. reflexivity.
  - apply answerable_short in Ha. rewrite length_app. cbn [length]. lia.
Qed.

(** X4.  Whatever operations are run on the object the constructor makes,
    the chain never holds more than two blocks. *)
Theorem at_most_two_blocks (ops : list operation) (console : list event) :
  (length (chain (this (perform_all ops (mkWorld constructor console))))
   <= 2)%nat.
Proof. apply built_ledger. Qed.

(** X5.  On a ledger built that way, [_addBlock] on a new block never
    rejects: it resolves with the sealed block and pushes it when the chain
    has fewer than two blocks, and otherwise stays pending with the ledger
    as it was. *)
Theorem append_to_built_ledger (ops : list operation) (console : list event)
    (data : bdata) (clock : Z) :
  let w := perform_all ops (mkWorld constructor console) in
  _addBlock (new_Block data) clock w
  = if (length (chain (this w)) <=? 1)%nat
    then (Resolved (sealed (this w) (new_Block data) clock),
          mkWorld (pushed (this w) (sealed (this w) (new_Block data) clock))
                  (trace w))
    else (Pending, w).
Proof.
  intros w. destruct (built_ledger ops console) as (Hinv & Hpass & _).
  fold w in Hinv, Hpass.
  rewrite _addBlock_runs.
  unfold answerable. rewrite Hpass. cbn [andb].
  destruct (length (chain (this w)) <=? 1)%nat; [|reflexivity].
  rewrite sealed_passes by reflexivity.
  destruct Hinv as [Hheight _].
  destruct (chain (this w)) as [|first rest] eqn:Hchain.
  - rewrite (proj2 (Z.ltb_ge (-1) (height (this w)))) by (cbn in Hheight; lia).
    reflexivity.
  - rewrite bool_decide_eq_false_2 by discriminate.
    rewrite andb_false_r. reflexivity.
Qed.

(** X6.  Every block of a ledger built that way carries as hash the digest
    of its own fields taken with the hash field empty. *)
Theorem stored_blocks_pass (ops : list operation) (console : list event)
    (block : Block) :
  block ∈ chain (this (perform_all ops (mkWorld constructor console))) ->
  BlockClass.hash block = Some (rehash block).
Proof.
  intros Hin. destruct (built_ledger ops console) as (_ & Hpass & _).
  rewrite forallb_forall in Hpass.
  apply list_elem_of_In, Hpass in Hin.
  unfold passes in Hin. apply bool_decide_eq_true_1 in Hin. exact Hin.
Qed.

(** X7.  Once construction has run to its end, [initializeChain] is without
    effect, whatever happened in between: it resolves and no second genesis
    block is made. *)
Theorem initializeChain_once (clock again : Z) (ops : list operation) :
  initializeChain again (perform_all ops (construction clock).2)
  = (Resolved tt, perform_all ops (construction clock).2).
Proof.
  destruct (after_construction clock ops) as [_ Hheight].
  unfold initializeChain, async_function.
  unfold mbind, exec_bind, bind, get_this.
  rewrite bool_decide_eq_false_2 by lia. reflexivity.
Qed.

(** ** Looking blocks up *)

Lemma filter_first {A} (P : A -> Prop) `{forall x, Decision (P x)}
    (l : list A) :
  match filter P l with
  | first :: _ =>
      exists before after : list A,
        l = (before ++ first :: after)%list /\ P first
        /\ Forall (fun x => ~ P x) before
  | [] => Forall (fun x => ~ P x) l
  end.
Proof.
  induction l as [|x l IH]; [constructor|].
  rewrite filter_cons. destruct (decide (P x)) as [Hx|Hx].
  - exists [], l. repeat split; [assumption|constructor].
  - destruct (filter P l) as [|first rest].
    + constructor; assumption.
    + destruct IH as (before & after & -> & Hfirst & Hbefore).
      exists (x :: before), after. repeat split; [assumption|].
      constructor; assumption.
Qed.

(** X8.  [getBlockByHash] leaves the world as it is and always settles.  It
    resolves with the first block, in chain order, whose hash field is the
    hash asked for; when no block has that hash it rejects with the Error
    [No hash was found with the specified hash]. *)
Theorem getBlockByHash_behaviour (hash : string) (w : World) :
  (getBlockByHash hash w).2 = w
  /\ match (getBlockByHash hash w).1 with
     | Resolved found =>
         exists before after : list Block,
           chain (this w) = (before ++ found :: after)%list
           /\ BlockClass.hash found = Some hash
           /\ Forall (fun block => BlockClass.hash block <> Some hash) before
     | Rejected why =>
         why = Error "No hash was found with the specified hash"
         /\ Forall (fun block => BlockClass.hash block <> Some hash)
                   (chain (this w))
     | Pending => False
     end.
Proof.
  unfold getBlockByHash, new_Promise, mbind, exec_bind, bind, get_this.
  pose proof (filter_first (fun block => BlockClass.hash block = Some hash)
                (chain (this w))) as Hfirst.
  destruct (filter _ (chain (this w))) as [|first rest]; cbn [fst snd].
  - split; [reflexivity|]. split; [reflexivity|exact Hfirst].
  - split; [reflexivity|exact Hfirst].
Qed.

Lemma find_by_height (n offset : Z) (blocks : list Block) :
  (forall (i : nat) (block : Block),
      blocks !! i = Some block -> BlockClass.height block = offset + Z.of_nat i) ->
  List.find (fun p => bool_decide (BlockClass.height p = n)) blocks
  = if offset <=? n then blocks !! Z.to_nat (n - offset) else None.
Proof.
  revert offset; induction blocks as [|block blocks IH]; intros offset Hfields.
  - cbn [List.find]. rewrite lookup_nil. destruct (offset <=? n); reflexivity.
  - cbn [List.find].
    pose proof (Hfields 0%nat block eq_refl) as Hhead.
    rewrite (IH (offset + 1)).
    2:{ intros i b Hlookup. rewrite (Hfields (S i) b Hlookup). lia. }
    destruct (decide (BlockClass.height block = n)) as [Heq|Hne].
    + rewrite bool_decide_eq_true_2 by exact Heq.
      rewrite (proj2 (Z.leb_le offset n)) by lia.
      replace (Z.to_nat (n - offset)) with 0%nat by lia. reflexivity.
    + rewrite bool_decide_eq_false_2 by exact Hne.
      destruct (Z.leb_spec (offset + 1) n) as [Hle|Hgt].
      * rewrite (proj2 (Z.leb_le offset n)) by lia.
        replace (Z.to_nat (n - offset)) with (S (Z.to_nat (n - (offset + 1))))
          by lia.
        reflexivity.
      * rewrite (proj2 (Z.leb_gt offset n)) by lia. reflexivity.
Qed.

Lemma getBlockByHeight_indexes (n : Z) (w : World) :
  ledger_inv (this w) ->
  getBlockByHeight n w
  = (Resolved (if 0 <=? n then chain (this w) !! Z.to_nat n else None), w).
Proof.
  intros [_ Hfields].
  unfold getBlockByHeight, new_Promise, mbind, exec_bind, bind, get_this, resolve.
  rewrite (find_by_height n 0) by (intros i b Hlookup; rewrite (Hfields i b Hlookup); lia).
  rewrite Z.sub_0_r. reflexivity.
Qed.

(** X9.  On a ledger whose blocks hold their index as height,
    [getBlockByHeight] is the array read: it resolves with the block at that
    index, and with [null] for a negative height or one past the end; it
    never rejects and leaves the world as it is. *)
Theorem getBlockByHeight_is_index (n : Z) (w : World) :
  ledger_inv (this w) ->
  (getBlockByHeight n w).2 = w
  /\ (0 <= n < Z.of_nat (length (chain (this w))) ->
      exists block : Block,
        chain (this w) !! Z.to_nat n = Some block
        /\ (getBlockByHeight n w).1 = Resolved (Some block))
  /\ (n < 0 \/ Z.of_nat (length (chain (this w))) <= n ->
      (getBlockByHeight n w).1 = Resolved None).
Proof.
  intros Hinv. rewrite (getBlockByHeight_indexes n w Hinv). cbn [fst snd].
  split; [reflexivity|]. split.
  - intros [Hlow Hhigh]. rewrite (proj2 (Z.leb_le 0 n)) by lia.
    destruct (lookup_lt_is_Some_2 (chain (this w)) (Z.to_nat n)) as [block Hb];
      [lia|].
    exists block. rewrite Hb. split; reflexivity.
  - intros [Hneg|Hpast].
    + rewrite (proj2 (Z.leb_gt 0 n)) by lia. reflexivity.
    + destruct (0 <=? n); [|reflexivity].
      rewrite lookup_ge_None_2 by lia. reflexivity.
Qed.

(** ** The challenge message, written and read back *)

Lemma split_without_colon (a : string) :
  no_colon a = true -> split ":" a = [a].
Proof.
  induction a as [|c a IH]; [reflexivity|].
  cbn [no_colon split]. intros [Hc Ha]%andb_true_iff.
  apply negb_true_iff in Hc. rewrite Hc, (IH Ha). reflexivity.
Qed.

Lemma split_first_field (a rest : string) :
  no_colon a = true ->
  split ":" (a +:+ String ":" rest) = a :: split ":" rest.
Proof.
  induction a as [|c a IH]; [reflexivity|].
  cbn [no_colon]. intros [Hc Ha]%andb_true_iff.
  apply negb_true_iff in Hc.
  change (String c a +:+ String ":" rest)
    with (String c (a +:+ String ":" rest)).
  cbn [split]. rewrite Hc, (IH Ha). reflexivity.
Qed.

Lemma no_colon_uint (d : Decimal.uint) :
  no_colon (NilEmpty.string_of_uint d) = true.
Proof. induction d; cbn [NilEmpty.string_of_uint no_colon]; auto. Qed.

Ltac read_digit :=
  match goal with
  | |- context [digit_of ?c] =>
      let v := eval vm_compute in (digit_of c) in
      change (digit_of c) with v; cbv beta iota;
      match goal with
      | |- context [?a <? 10] => change (a <? 10) with true; cbv beta iota
      end
  end.

Lemma digits_from (d : Decimal.uint) (acc : positive) :
  digits 10 (NilEmpty.string_of_uint d) (Some (Zpos acc))
  = Some (Zpos (Pos.of_uint_acc d acc)).
Proof.
  revert acc; induction d; intros acc; [reflexivity|..];
    cbn [NilEmpty.string_of_uint digits Pos.of_uint_acc]; read_digit;
    rewrite <- IHd; cbn [default]; unfold id; do 2 f_equal; lia.
Qed.

Lemma digits_start (d : Decimal.uint) (acc : number) :
  default 0 acc = 0 ->
  digits 10 (NilEmpty.string_of_uint d) acc
  = match d with
    | Decimal.Nil => acc
    | _ => Some (Z.of_N (Pos.of_uint d))
    end.
Proof.
  revert acc; induction d; intros acc Hacc; [reflexivity|..];
    cbn [NilEmpty.string_of_uint digits Pos.of_uint]; read_digit;
    rewrite Hacc; change (0 * 10) with 0; rewrite Z.add_0_l.
  - rewrite (IHd (Some 0) eq_refl). destruct d; reflexivity.
  - apply (digits_from d 1).
  - apply (digits_from d 2).
  - apply (digits_from d 3).
  - apply (digits_from d 4).
  - apply (digits_from d 5).
  - apply (digits_from d 6).
  - apply (digits_from d 7).
  - apply (digits_from d 8).
  - apply (digits_from d 9).
Qed.

Lemma parseInt_string_uint (d : Decimal.uint) :
  parseInt_string (NilEmpty.string_of_uint d)
  = match d with
    | Decimal.Nil => NaN
    | _ => Some (Z.of_N (Pos.of_uint d))
    end.
Proof.
  assert (forall s : string,
             parseInt_string (NilEmpty.string_of_uint d)
             = Z.mul 1 <$> digits 10 (NilEmpty.string_of_uint d) NaN)
    as Hplain.
  { intros _. destruct d as [|d|d|d|d|d|d|d|d|d|d]; try reflexivity.
    destruct d; reflexivity. }
  rewrite (Hplain EmptyString), (digits_start d NaN eq_refl).
  destruct d; try reflexivity;
    cbn [fmap option_fmap option_map]; f_equal; apply Z.mul_1_l.
Qed.

Lemma parseInt_render (clock : Z) :
  0 < clock -> parseInt (Some (render_number (Some clock))) = Some clock.
Proof.
  intros Hpos. destruct clock as [|p|p]; try lia.
  cbn [parseInt render_number Z.to_int NilZero.string_of_int].
  pose proof (DecimalPos.Unsigned.of_to p) as Hround.
  assert (Pos.to_uint p <> Decimal.Nil) as Hdigits
    by (intros Hnil; rewrite Hnil in Hround; discriminate).
  revert Hround Hdigits. generalize (Pos.to_uint p). intros d Hround Hdigits.
  replace (NilZero.string_of_uint d) with (NilEmpty.string_of_uint d)
    by (destruct d; [contradiction|reflexivity..]).
  rewrite parseInt_string_uint.
  destruct d; [contradiction|..]; rewrite Hround; reflexivity.
Qed.

Lemma no_colon_render (clock : Z) :
  0 < clock -> no_colon (render_number (Some clock)) = true.
Proof.
  intros Hpos. destruct clock as [|p|p]; try lia.
  cbn [render_number Z.to_int NilZero.string_of_int].
  unfold NilZero.string_of_uint.
  destruct (Pos.to_uint p) eqn:Hd; [reflexivity|..];
    rewrite <- Hd; apply no_colon_uint.
Qed.

Lemma issued_message_reads_back (address : string) (clock : Z) :
  no_colon address = true ->
  0 < clock ->
  split ":" (address +:+ ":" +:+ render_number (Some clock) +:+ ":starRegistry")
  = [address; render_number (Some clock); "starRegistry"]
  /\ embedded_time
       (address +:+ ":" +:+ render_number (Some clock) +:+ ":starRegistry")
     = Some clock.
Proof.
  intros Haddress Hclock.
  assert (split ":" (address +:+ ":" +:+ render_number (Some clock)
                     +:+ ":starRegistry")
          = [address; render_number (Some clock); "starRegistry"]) as Hsplit.
  { change (":" +:+ render_number (Some clock) +:+ ":starRegistry")
      with (String ":" (render_number (Some clock)
                        +:+ String ":" "starRegistry")).
    rewrite (split_first_field address _ Haddress).
    rewrite split_first_field; [reflexivity|].
    apply no_colon_render, Hclock. }
  split; [exact Hsplit|].
  unfold embedded_time. rewrite Hsplit. cbn [lookup list_lookup].
  apply parseInt_render, Hclock.
Qed.

(** X10.  The challenge [requestMessageOwnershipVerification] issues for an
    address without a colon, at a clock past zero, splits into the address,
    the clock and the tag, and [submitStar] reads the clock back in it. *)
Theorem challenge_round_trip (address : string) (clock : Z) (w : World) :
  no_colon address = true ->
  0 < clock ->
  exists message : string,
    requestMessageOwnershipVerification address clock w = (Resolved message, w)
    /\ split ":" message
       = [address; render_number (Some clock); "starRegistry"]
    /\ embedded_time message = Some clock.
Proof.
  intros Haddress Hclock.
  exists (address +:+ ":" +:+ render_number (Some clock) +:+ ":starRegistry").
  split; [reflexivity|].
  apply issued_message_reads_back; assumption.
Qed.

(** ** Registering a star *)

Lemma _addBlock_accepts (block : Block) (clock : Z) (w : World) :
  ledger_inv (this w) ->
  answerable (chain (this w)) = true ->
  BlockClass.hash block = None ->
  _addBlock block clock w
  = (Resolved (sealed (this w) block clock),
     mkWorld (pushed (this w) (sealed (this w) block clock)) (trace w)).
Proof.
  intros [Hheight _] Hanswerable Hfresh.
  rewrite _addBlock_runs, Hanswerable.
  rewrite sealed_passes by exact Hfresh.
  destruct (chain (this w)) as [|first rest] eqn:Hchain.
  - rewrite (proj2 (Z.ltb_ge (-1) (height (this w)))) by (cbn in Hheight; lia).
    reflexivity.
  - rewrite bool_decide_eq_false_2 by discriminate.
    rewrite andb_false_r. reflexivity.
Qed.

Lemma submitStar_accepts (address message signature star : string)
    (currentTime sealTime t : Z) (w : World) :
  embedded_time message = Some t ->
  currentTime - t <= 300 ->
  verify message address signature = Ret true ->
  ledger_inv (this w) ->
  answerable (chain (this w)) = true ->
  submitStar address message signature star currentTime sealTime w
  = (Resolved (sealed (this w) (new_Block (StarData star address)) sealTime),
     mkWorld
       (pushed (this w)
          (sealed (this w) (new_Block (StarData star address)) sealTime))
       (trace w ++ [VerifyCall message address signature])).
Proof.
  intros Ht Hfresh Hsig Hinv Hanswerable.
  rewrite submitStar_runs, Ht, Hsig. cbn [js_sub js_gt].
  rewrite (proj2 (Z.ltb_ge 300 (currentTime - t))) by lia. cbn zeta.
  rewrite _addBlock_accepts by (assumption || reflexivity). reflexivity.
Qed.

(** What a resolved [submitStar] has done. *)
Lemma submitStar_resolved (address message signature star : string)
    (currentTime sealTime : Z) (w w' : World) (added : Block) :
  submitStar address message signature star currentTime sealTime w
  = (Resolved added, w') ->
  added = sealed (this w) (new_Block (StarData star address)) sealTime
  /\ this w' = pushed (this w) added.
Proof.
  rewrite submitStar_runs. cbn zeta.
  destruct (js_gt _ _); [discriminate|].
  destruct (verify message address signature) as [[]|err]; [|discriminate..].
  destruct (_addBlock_outcome (new_Block (StarData star address)) sealTime
              (mkWorld (this w)
                 (trace w ++ [VerifyCall message address signature])))
    as [->|[_ Hnot]].
  - intros Heq. injection Heq as <- <-. split; reflexivity.
  - destruct (_addBlock _ _ _) as [[block|err|] w2]; try discriminate.
    exfalso. exact (Hnot block eq_refl).
Qed.

(** X11.  A message with a timestamp at most 300 seconds old and a
    signature [verify] accepts, on a ledger with heights in place that
    [validateChain] can answer for: [submitStar] resolves with a new last
    block holding the encoded star and owner, the seal time, its index as
    height, the hash of the block before it (or the empty sentinel) as
    previous hash, and a hash that passes self-validation; the height
    counter is one more and [verify] was called once. *)
Theorem submitStar_registers (address message signature star : string)
    (currentTime sealTime t : Z) (w : World) :
  embedded_time message = Some t ->
  currentTime - t <= 300 ->
  verify message address signature = Ret true ->
  ledger_inv (this w) ->
  answerable (chain (this w)) = true ->
  exists added : Block,
    submitStar address message signature star currentTime sealTime w
    = (Resolved added,
       mkWorld (mkBlockchain (chain (this w) ++ [added]) (height (this w) + 1))
               (trace w ++ [VerifyCall message address signature]))
    /\ BlockClass.body added = encode (StarData star address)
    /\ BlockClass.time added = sealTime
    /\ BlockClass.height added = Z.of_nat (length (chain (this w)))
    /\ BlockClass.previousBlockHash added
       = match last (chain (this w)) with
         | Some lastBlock => BlockClass.hash lastBlock
         | None => None
         end
    /\ passes added = true.
Proof.
  intros Ht Hfresh Hsig Hinv Hanswerable.
  exists (sealed (this w) (new_Block (StarData star address)) sealTime).
  split; [apply (submitStar_accepts _ _ _ _ _ _ t); assumption|].
  split; [unfold sealed; destruct (-1 <? height (this w));
          [destruct (last (chain (this w)))|]; reflexivity|].
  split; [reflexivity|]. split; [reflexivity|].
  split; [|apply sealed_passes; reflexivity].
  rewrite sealed_previousBlockHash. destruct Hinv as [Hheight _].
  destruct (last (chain (this w))) as [lastBlock|] eqn:Hlast.
  - rewrite (proj2 (Z.ltb_lt (-1) (height (this w)))); [reflexivity|].
    destruct (chain (this w)); [discriminate Hlast|cbn in Hheight; lia].
  - destruct (-1 <? height (this w)); reflexivity.
Qed.

(** X12.  When the message is not expired and [verify] throws, [submitStar]
    rejects with an Error whose message is [Unable to register block with
    star object. Details: ] followed by the message of what was thrown; the
    ledger is as before. *)
Theorem submitStar_verify_throws (address message signature star : string)
    (currentTime sealTime : Z) (err : reason) (w : World) :
  (forall t : Z, embedded_time message = Some t -> currentTime - t <= 300) ->
  verify message address signature = Raise err ->
  submitStar address message signature star currentTime sealTime w
  = (Rejected (Error ("Unable to register block with star object. Details: "
                      +:+ message_of err)),
     mkWorld (this w) (trace w ++ [VerifyCall message address signature])).
Proof.
  intros Hfresh Hsig. rewrite submitStar_runs, Hsig. cbn zeta.
  destruct (embedded_time message) as [t|] eqn:Ht; cbn [js_sub js_gt];
    [|reflexivity].
  rewrite (proj2 (Z.ltb_ge 300 (currentTime - t)))
    by (specialize (Hfresh t eq_refl); lia).
  reflexivity.
Qed.

Lemma stars_found_pushed (address : string) (self : Blockchain) (block : Block) :
  stars_found address (pushed self block)
  = (stars_found address self ++ option_list (owned_by address block))%list.
Proof.
  unfold stars_found, stars_read, getStarsByWalletAddress.
  cbn [microtasks stars_at_resolve pushed chain].
  rewrite !microtasks_collect. cbn [app].
  rewrite omap_app. cbn [omap list_omap].
  destruct (owned_by address block); reflexivity.
Qed.

(** X13.  With a payload encoding that decodes what it encoded: after
    [submitStar] has resolved for a non-empty address, the owner query for
    that address gives what it gave before followed by the new star, and
    the owner query for any other address is unchanged. *)
Theorem registered_star_is_found (address message signature star : string)
    (currentTime sealTime : Z) (w w' : World) (added : Block) :
  LawfulLibraries L ->
  address <> "" ->
  submitStar address message signature star currentTime sealTime w
  = (Resolved added, w') ->
  stars_found address (this w')
  = (stars_found address (this w) ++ [StarData star address])%list
  /\ forall other : string,
       other <> address ->
       stars_found other (this w') = stars_found other (this w).
Proof.
  intros Hlawful Hfull Hdone.
  apply submitStar_resolved in Hdone as [-> ->].
  assert (decode (BlockClass.body
                    (sealed (this w) (new_Block (StarData star address))
                       sealTime))
          = Some (StarData star address)) as Hbody.
  { replace (BlockClass.body _) with (encode (StarData star address));
      [apply decode_encode|].
    unfold sealed. destruct (-1 <? height (this w));
      [destruct (last (chain (this w)))|]; reflexivity. }
  split; [|intros other Hother]; rewrite stars_found_pushed;
    unfold owned_by; rewrite Hbody; cbn [mbind option_bind BlockClass.owner_of].
  - rewrite bool_decide_eq_true_2 by (split; [reflexivity|exact Hfull]).
    reflexivity.
  - rewrite bool_decide_eq_false_2 by (intros [Heq _]; congruence).
    apply app_nil_r.
Qed.

(** X14.  After [submitStar] has resolved with a block on a ledger with
    heights in place, [getBlockByHeight] at that block's height resolves
    with that very block, and [getBlockByHash] at its hash resolves with a
    block carrying that hash. *)
Theorem registered_block_is_found (address message signature star : string)
    (currentTime sealTime : Z) (w w' : World) (added : Block) :
  ledger_inv (this w) ->
  submitStar address message signature star currentTime sealTime w
  = (Resolved added, w') ->
  (getBlockByHeight (BlockClass.height added) w').1 = Resolved (Some added)
  /\ exists (hash : string) (found : Block),
       BlockClass.hash added = Some hash
       /\ (getBlockByHash hash w').1 = Resolved found
       /\ BlockClass.hash found = Some hash.
Proof.
  intros Hinv Hdone.
  apply submitStar_resolved in Hdone as [Hadded Hthis].
  assert (ledger_inv (this w')) as Hinv'
    by (rewrite Hthis, Hadded; apply pushed_ledger_inv; exact Hinv).
  assert (chain (this w') !! length (chain (this w)) = Some added) as Hlast.
  { rewrite Hthis. cbn [pushed chain].
    apply lookup_snoc_Some. right. split; reflexivity. }
  assert (BlockClass.height added = Z.of_nat (length (chain (this w))))
    as Hheight by (rewrite Hadded; apply sealed_height).
  split.
  - rewrite Hheight, (getBlockByHeight_indexes _ w' Hinv'). cbn [fst].
    rewrite (proj2 (Z.leb_le 0 _)) by lia.
    rewrite Nat2Z.id, Hlast. reflexivity.
  - assert (exists hash : string, BlockClass.hash added = Some hash)
      as [hash Hhash] by (rewrite Hadded; eexists; reflexivity).
    exists hash.
    unfold getBlockByHash, new_Promise, mbind, exec_bind, bind, get_this.
    pose proof (filter_first (fun block => BlockClass.hash block = Some hash)
                  (chain (this w'))) as Hfirst.
    destruct (filter _ (chain (this w'))) as [|first rest]; cbn [fst].
    + exfalso. rewrite Forall_forall in Hfirst.
      apply (Hfirst added); [|exact Hhash].
      apply list_elem_of_lookup. eexists; exact Hlast.
    + destruct Hfirst as (before & after & _ & Hfound & _).
      exists first. split; [exact Hhash|]. split; [reflexivity|exact Hfound].
Qed.

(** ** From challenge to registered star *)

Lemma sealed_body (self : Blockchain) (block : Block) (clock : Z) :
  BlockClass.body (sealed self block clock) = BlockClass.body block.
Proof.
  unfold sealed. destruct (-1 <? height self);
    [destruct (last (chain self))|]; reflexivity.
Qed.

Lemma constructed_ledger (clock : Z) :
  ledger_inv (this (construction clock).2)
  /\ answerable (chain (this (construction clock).2)) = true.
Proof.
  split; [exact (proj1 (after_construction clock []))|].
  rewrite construction_runs. unfold answerable.
  cbn [snd this chain forallb length Nat.leb andb].
  rewrite sealed_passes by reflexivity. reflexivity.
Qed.

(** X15.  The whole path on a freshly constructed ledger, with a payload
    encoding that decodes what it encoded: the challenge issued for a
    non-empty address without a colon, submitted within 300 seconds with a
    signature [verify] accepts, is registered.  [submitStar] resolves with
    the new block, the height becomes 1, the block is the one found at
    height 1, and the owner query for the address gives exactly that star. *)
Theorem challenge_sign_submit (address signature star message : string)
    (clock issued submitted sealTime : Z) :
  LawfulLibraries L ->
  no_colon address = true ->
  address <> "" ->
  0 < issued ->
  submitted - issued <= 300 ->
  (requestMessageOwnershipVerification address issued (construction clock).2).1
  = Resolved message ->
  verify message address signature = Ret true ->
  exists (added : Block) (w' : World),
    submitStar address message signature star submitted sealTime
      (construction clock).2
    = (Resolved added, w')
    /\ (getChainHeight w').1 = Resolved 1
    /\ (getBlockByHeight 1 w').1 = Resolved (Some added)
    /\ stars_found address (this w') = [StarData star address].
Proof.
  intros Hlawful Hcolon Hfull Hissued Hfresh Hmessage Hsig.
  injection Hmessage as <-.
  destruct (issued_message_reads_back address issued Hcolon Hissued)
    as [_ Htime].
  destruct (constructed_ledger clock) as [Hinv Hanswerable].
  pose proof (submitStar_accepts address _ signature star submitted sealTime
                issued (construction clock).2 Htime Hfresh Hsig Hinv
                Hanswerable) as Hsubmit.
  pose proof (pushed_ledger_inv (this (construction clock).2)
                (new_Block (StarData star address)) sealTime Hinv) as Hinv'.
  revert Hsubmit Hinv'. rewrite construction_runs. cbn [snd this trace].
  set (self := mkBlockchain _ 0).
  set (added := sealed self (new_Block (StarData star address)) sealTime).
  intros Hsubmit Hinv'.
  eexists added, _. split; [exact Hsubmit|].
  split; [reflexivity|]. split.
  - rewrite getBlockByHeight_indexes by exact Hinv'. reflexivity.
  - cbn [this]. rewrite stars_found_pushed.
    unfold stars_found at 1, stars_read, getStarsByWalletAddress.
    cbn [microtasks stars_at_resolve chain self].
    rewrite microtasks_collect. cbn [app omap list_omap].
    unfold owned_by. subst added. rewrite !sealed_body.
    cbn [new_Block BlockClass.body]. rewrite !decode_encode.
    cbn [mbind option_bind BlockClass.owner_of].
    rewrite bool_decide_eq_false_2 by (intros [? _]; discriminate).
    rewrite bool_decide_eq_true_2 by (split; [reflexivity|exact Hfull]).
    reflexivity.
Qed.

(** ** Owners in the ledgers the class builds *)

Lemma perform_public_this (o : operation) (w : World) :
  public o = true ->
  this (perform o w) = this w
  \/ (exists clock : Z,
        this (perform o w)
        = pushed (this w)
            (sealed (this w) (new_Block (GenesisData "Genesis Block")) clock))
  \/ (exists (star address message signature : string) (clock : Z),
        verify message address signature = Ret true
        /\ this (perform o w)
           = pushed (this w)
               (sealed (this w) (new_Block (StarData star address)) clock)).
Proof.
  intros Hpublic. destruct o; try discriminate Hpublic; cbn [perform].
  - destruct (initializeChain_this clock w) as [H|H]; eauto.
  - rewrite submitStar_runs. cbn zeta.
    destruct (js_gt _ _); [left; reflexivity|].
    destruct (verify message address signature) as [[]|err] eqn:Hsig;
      [|left; reflexivity..].
    pose proof (_addBlock_this (new_Block (StarData star address)) sealTime
                  (mkWorld (this w)
                     (trace w ++ [VerifyCall message address signature])))
      as Hthis.
    destruct (_addBlock _ _ _) as [[block|err|] w2];
      (destruct Hthis as [H|H]; [left; exact H|right; right; eauto 10]).
  - left; reflexivity.
  - left; reflexivity.
  - left. unfold getBlockByHash, new_Promise.
    unfold mbind, exec_bind, bind, get_this.
    destruct (filter _ _); reflexivity.
  - left; reflexivity.
  - left; reflexivity.
  - left. rewrite validateChain_runs. reflexivity.
Qed.

Lemma pushed_owners (self : Blockchain) (data : bdata) (clock : Z) :
  LawfulLibraries L ->
  (forall star : string, data <> StarData star "") ->
  chain self <> [] ->
  genesis_first (chain self) ->
  owners_named (chain self) ->
  genesis_first (chain (pushed self (sealed self (new_Block data) clock)))
  /\ owners_named (chain (pushed self (sealed self (new_Block data) clock))).
Proof.
  intros Hlawful Hdata Hfull Hfirst Hnamed. cbn [pushed chain]. split.
  - intros first payload Hlookup. apply Hfirst.
    rewrite lookup_app_l in Hlookup; [exact Hlookup|].
    destruct (chain self); [contradiction|cbn; lia].
  - intros block star [Hin|Hin]%elem_of_app; [apply Hnamed, Hin|].
    apply list_elem_of_singleton in Hin as ->.
    rewrite sealed_body. cbn [new_Block BlockClass.body].
    rewrite decode_encode. intros Heq. injection Heq as Heq.
    exact (Hdata star Heq).
Qed.

(** With a payload encoding that decodes what it encoded and a [verify]
    that accepts nothing for the empty address: in every ledger that the
    public operations build after construction, the first block carries no
    owner and no star is registered to the empty address. *)
Lemma built_ledger_owners (clock : Z) (ops : list operation) :
  LawfulLibraries L ->
  refuses_empty_address L ->
  Forall (fun o => public o = true) ops ->
  genesis_first (chain (this (perform_all ops (construction clock).2)))
  /\ owners_named (chain (this (perform_all ops (construction clock).2))).
Proof.
  intros Hlawful Hrefuses Hpublic. rewrite construction_runs. cbn [snd].
  set (w := mkWorld _ _).
  assert (chain (this w) <> [] /\ genesis_first (chain (this w))
          /\ owners_named (chain (this w))) as Hstart.
  { subst w. cbn [this chain]. split; [discriminate|]. split.
    - intros first data Hlookup Hdata. injection Hlookup as <-.
      rewrite sealed_body in Hdata. cbn [new_Block BlockClass.body] in Hdata.
      rewrite decode_encode in Hdata. injection Hdata as <-. reflexivity.
    - intros block star Hin. apply list_elem_of_singleton in Hin as ->.
      rewrite sealed_body. cbn [new_Block BlockClass.body].
      rewrite decode_encode. discriminate. }
  clearbody w. revert w Hstart.
  induction Hpublic as [|o ops Ho _ IH]; intros w (Hfull & Hfirst & Hnamed);
    [split; assumption|].
  cbn [perform_all fold_left]. apply IH.
  destruct (perform_public_this o w Ho)
    as [->|[(again & ->)|(star & address & message & signature & stamp
                          & Hsig & ->)]].
  - split; [exact Hfull|split; assumption].
  - split; [cbn [pushed chain]; destruct (chain (this w)); discriminate|].
    apply pushed_owners; try assumption. discriminate.
  - split; [cbn [pushed chain]; destruct (chain (this w)); discriminate|].
    apply pushed_owners; try assumption.
    intros star' Heq. injection Heq as _ ->.
    exact (Hrefuses message signature Hsig).
Qed.

End Methods.

(** ** The methods run on examples *)

Lemma demo_fresh_sound :
  ledger_inv (this Demo.fresh)
  /\ @answerable Demo.libraries (chain (this Demo.fresh)) = true.
Proof. exact (@constructed_ledger Demo.libraries 1700000000). Qed.

Lemma demo_challenge_time :
  embedded_time (Demo.challenge Demo.alice) = Some 1700000100.
Proof. vm_compute. reflexivity. Qed.

Lemma validateChain_behaviour_witness :
  ((length (chain (this Demo.fresh)) <= 1)%nat
   /\ Forall (fun block => @passes Demo.libraries block = true)
             (chain (this Demo.fresh)))
  /\ (@validateChain Demo.libraries Demo.fresh).1 = Resolved [].
Proof.
  assert ((length (chain (this Demo.fresh)) <= 1)%nat
          /\ Forall (fun block => @passes Demo.libraries block = true)
                    (chain (this Demo.fresh))) as Hsound.
  { split; [vm_compute; lia|]. repeat constructor. }
  split; [exact Hsound|].
  apply (proj1 (proj2 (proj2 (proj2
           (@validateChain_behaviour Demo.libraries Demo.fresh))))).
  exact Hsound.
Defined.

Lemma no_append_beyond_two_witness :
  (2 <= length (chain (this Demo.after_one_star)))%nat
  /\ @_addBlock Demo.libraries
       (@new_Block Demo.libraries (StarData "Rigel" Demo.bob)) 1700000300
       Demo.after_one_star
     = (Pending, Demo.after_one_star).
Proof.
  assert (2 <= length (chain (this Demo.after_one_star)))%nat as Hlong
    by (vm_compute; lia).
  split; [exact Hlong|].
  apply (proj1 (@no_append_beyond_two Demo.libraries Demo.after_one_star Hlong)).
Defined.

Lemma stored_blocks_pass_witness :
  @sealed Demo.libraries constructor
    (@new_Block Demo.libraries (GenesisData "Genesis Block")) 1700000000
  ∈ chain (this (@perform_all Demo.libraries [InitializeChain 1700000000]
                   (mkWorld constructor [])))
  /\ BlockClass.hash
       (@sealed Demo.libraries constructor
          (@new_Block Demo.libraries (GenesisData "Genesis Block")) 1700000000)
     = Some (@rehash Demo.libraries
               (@sealed Demo.libraries constructor
                  (@new_Block Demo.libraries (GenesisData "Genesis Block"))
                  1700000000)).
Proof.
  assert (@sealed Demo.libraries constructor
            (@new_Block Demo.libraries (GenesisData "Genesis Block"))
            1700000000
          ∈ chain (this (@perform_all Demo.libraries
                           [InitializeChain 1700000000]
                           (mkWorld constructor []))))
    as Hin by (vm_compute; constructor).
  split; [exact Hin|].
  exact (@stored_blocks_pass Demo.libraries [InitializeChain 1700000000] []
           _ Hin).
Defined.

Lemma getBlockByHeight_is_index_witness :
  ledger_inv (this Demo.fresh)
  /\ (exists block : Block,
        chain (this Demo.fresh) !! Z.to_nat 0 = Some block
        /\ (getBlockByHeight 0 Demo.fresh).1
           = Resolved (Some block))
  /\ (getBlockByHeight 7 Demo.fresh).1 = Resolved None.
Proof.
  pose proof (proj1 demo_fresh_sound) as Hinv.
  split; [exact Hinv|]. split.
  - apply (proj1 (proj2 (getBlockByHeight_is_index 0
                           Demo.fresh Hinv))).
    vm_compute. split; [discriminate|reflexivity].
  - apply (proj2 (proj2 (getBlockByHeight_is_index 7
                           Demo.fresh Hinv))).
    right. vm_compute. discriminate.
Defined.

Lemma challenge_round_trip_witness :
  no_colon Demo.alice = true
  /\ 0 < 1700000100
  /\ exists message : string,
       @requestMessageOwnershipVerification Demo.alice 1700000100 Demo.fresh
       = (Resolved message, Demo.fresh)
       /\ split ":" message
          = [Demo.alice; render_number (Some 1700000100); "starRegistry"]
       /\ embedded_time message = Some 1700000100.
Proof.
  split; [reflexivity|]. split; [lia|].
  apply (@challenge_round_trip Demo.alice 1700000100 Demo.fresh);
    [reflexivity|lia].
Defined.

Lemma submitStar_registers_witness :
  embedded_time (Demo.challenge Demo.alice) = Some 1700000100
  /\ 1700000200 - 1700000100 <= 300
  /\ Demo.signed_by (Demo.challenge Demo.alice) Demo.alice
       (Demo.alice +:+ "/" +:+ Demo.challenge Demo.alice) = Ret true
  /\ exists added : Block,
       (@submitStar Demo.libraries Demo.alice (Demo.challenge Demo.alice)
          (Demo.alice +:+ "/" +:+ Demo.challenge Demo.alice) "Vega"
          1700000200 1700000200 Demo.fresh).1 = Resolved added
       /\ BlockClass.height added = 1.
Proof.
  assert (Demo.signed_by (Demo.challenge Demo.alice) Demo.alice
            (Demo.alice +:+ "/" +:+ Demo.challenge Demo.alice) = Ret true)
    as Hsig by (vm_compute; reflexivity).
  split; [exact demo_challenge_time|]. split; [lia|]. split; [exact Hsig|].
  destruct (@submitStar_registers Demo.libraries Demo.alice
              (Demo.challenge Demo.alice)
              (Demo.alice +:+ "/" +:+ Demo.challenge Demo.alice) "Vega"
              1700000200 1700000200 1700000100 Demo.fresh
              demo_challenge_time ltac:(lia) Hsig
              (proj1 demo_fresh_sound) (proj2 demo_fresh_sound))
    as (added & Hdone & _ & _ & Hheight & _).
  exists added. split; [rewrite Hdone; reflexivity|exact Hheight].
Defined.

Lemma submitStar_verify_throws_witness :
  (forall t : Z,
      embedded_time (Demo.challenge Demo.alice) = Some t ->
      1700000200 - t <= 300)
  /\ Demo.signed_by (Demo.challenge Demo.alice) Demo.alice ""
     = Raise (Error "Invalid signature length")
  /\ (@submitStar Demo.libraries Demo.alice (Demo.challenge Demo.alice) ""
        "Vega" 1700000200 1700000200 Demo.fresh).1
     = Rejected (Error "Unable to register block with star object. Details: Invalid signature length").
Proof.
  assert (forall t : Z,
             embedded_time (Demo.challenge Demo.alice) = Some t ->
             1700000200 - t <= 300) as Hfresh.
  { intros t Ht. rewrite demo_challenge_time in Ht. injection Ht as <-. lia. }
  split; [exact Hfresh|]. split; [reflexivity|].
  rewrite (@submitStar_verify_throws Demo.libraries Demo.alice
             (Demo.challenge Demo.alice) "" "Vega" 1700000200 1700000200
             (Error "Invalid signature length") Demo.fresh Hfresh eq_refl).
  reflexivity.
Defined.

Lemma demo_registration :
  @submitStar Demo.libraries Demo.alice (Demo.challenge Demo.alice)
    (Demo.alice +:+ "/" +:+ Demo.challenge Demo.alice) "Vega"
    1700000200 1700000200 Demo.fresh
  = (Resolved (@sealed Demo.libraries (this Demo.fresh)
                 (@new_Block Demo.libraries (StarData "Vega" Demo.alice))
                 1700000200),
     Demo.after_one_star).
Proof. vm_compute. reflexivity. Qed.

Lemma demo_alice_named : Demo.alice <> "".
Proof. discriminate. Qed.

Lemma registered_star_is_found_witness :
  LawfulLibraries Demo.libraries
  /\ Demo.alice <> ""
  /\ @stars_found Demo.libraries Demo.alice (this Demo.after_one_star)
     = (@stars_found Demo.libraries Demo.alice (this Demo.fresh)
        ++ [StarData "Vega" Demo.alice])%list.
Proof.
  split; [exact demo_lawful|]. split; [exact demo_alice_named|].
  apply (@registered_star_is_found Demo.libraries _ _ _ _ _ _ _ _ _
           demo_lawful demo_alice_named demo_registration).
Defined.

Lemma registered_block_is_found_witness :
  ledger_inv (this Demo.fresh)
  /\ (getBlockByHeight 1 Demo.after_one_star).1
     = Resolved (Some (@sealed Demo.libraries (this Demo.fresh)
                         (@new_Block Demo.libraries (StarData "Vega" Demo.alice))
                         1700000200)).
Proof.
  split; [exact (proj1 demo_fresh_sound)|].
  apply (@registered_block_is_found Demo.libraries _ _ _ _ _ _ _ _ _
           (proj1 demo_fresh_sound) demo_registration).
Defined.

Lemma challenge_sign_submit_witness :
  LawfulLibraries Demo.libraries
  /\ no_colon Demo.alice = true
  /\ Demo.alice <> ""
  /\ 1700000200 - 1700000100 <= 300
  /\ exists (added : Block) (w' : World),
       @submitStar Demo.libraries Demo.alice (Demo.challenge Demo.alice)
         (Demo.alice +:+ "/" +:+ Demo.challenge Demo.alice) "Vega"
         1700000200 1700000200 (@construction Demo.libraries 1700000000).2
       = (Resolved added, w')
       /\ (getChainHeight w').1 = Resolved 1
       /\ (getBlockByHeight 1 w').1 = Resolved (Some added)
       /\ @stars_found Demo.libraries Demo.alice (this w')
          = [StarData "Vega" Demo.alice].
Proof.
  split; [exact demo_lawful|]. split; [reflexivity|].
  split; [discriminate|]. split; [lia|].
  apply (@challenge_sign_submit Demo.libraries Demo.alice
           (Demo.alice +:+ "/" +:+ Demo.challenge Demo.alice) "Vega"
           (Demo.challenge Demo.alice) 1700000000 1700000100 1700000200
           1700000200 demo_lawful);
    [reflexivity|discriminate|lia|lia|vm_compute; reflexivity
    |vm_compute; reflexivity].
Defined.

Lemma demo_refuses_empty_address : refuses_empty_address Demo.libraries.
Proof.
  intros message signature. cbn [verify Demo.libraries]. unfold Demo.signed_by.
  destruct (bool_decide (signature = "")); [discriminate|].
  rewrite bool_decide_eq_true_2 by reflexivity. discriminate.
Qed.
